(** * ReadoutApplication::generate_modules

    A shallow embedding of [src/ReadoutApplication.cpp] (DUNE DAQ
    [readoutdal]): the [generate_modules] DAL method that derives, from a
    readout application's declarative description, the Data Link Handler,
    DataReader and TP handler objects and their connections, creating each
    one in the configuration database.

    Conventions of the embedding:
    - unsigned attributes ([uint16_t], [uint32_t]) are [N]; where the code
      converts to a narrower type the reduction modulo [2^w] is written out;
      the [int] counters [rnum] and [port_offset] are [Z] (they count
      groups and streams, and stay far below [2^31]);
    - a pointer returned by a single-valued relationship accessor is an
      [option]; dereferencing a null pointer is the outcome [NullDeref];
    - a thrown [ers] issue is the outcome [Thrown]; the configuration
      database is threaded through every call and survives a throw (the
      code never rolls it back);
    - [std::to_string] is stdpp's decimal [pretty];
    - [confdb->get<coredal::Connection>(uid)] (lines 195, 196 and 201)
      is a lookup by unique id among the objects of the classes derived
      from [Connection]; what it finds is left to the database, see
      [ConnectionLookup];
    - the pointers pushed to [modules] (lines 130, 203 and 219) are handed
      back without being used: each is recorded as the reference of the
      object the same iteration has just created under the unique id the
      pointer was asked for. *)

From Stdlib Require Import Ascii String.
From stdpp Require Import base numbers list strings gmap pretty.

Local Open Scope N_scope.

(** ** Integer types *)

Definition UINT16_MOD : Z := 2 ^ 16.
Definition UINT32_MOD : N := 2 ^ 32.

(** Conversion of an [int] to [uint16_t]. *)
Definition to_uint16 (z : Z) : N := Z.to_N (z `mod` UINT16_MOD).

(** ** Stream formatting: [std::hex], [std::setw], [fill] *)

Definition hex_digit (d : N) : ascii :=
  Ascii.ascii_of_N (if d <? 10 then 48 + d else 87 + d).

(** Digits of [n] in base 16, most significant first, prepended to [acc];
    [fuel + 1] digits at most. *)
Fixpoint hex_go (fuel : nat) (n : N) (acc : string) : string :=
  let acc' := String (hex_digit (n `mod` 16)) acc in
  match fuel with
  | O => acc'
  | S fuel' => if n `div` 16 =? 0 then acc' else hex_go fuel' (n `div` 16) acc'
  end.

(** [os << std::hex << n]: the shortest lowercase hexadecimal numeral. *)
Definition to_hex (n : N) : string := hex_go (N.to_nat (N.log2 n)) n "".

Fixpoint fill_string (c : ascii) (k : nat) : string :=
  match k with
  | O => ""
  | S k' => String c (fill_string c k')
  end.

(** [os.fill(c); os << std::setw(w) << s]: [w] is a minimum width, the
    padding goes to the left. *)
Definition setw_fill (w : nat) (c : ascii) (s : string) : string :=
  fill_string c (w - String.length s) +:+ s.

(** ** The configuration database

    [oksdbinterfaces::Configuration] and [ConfigObject] are an external
    library: the database is a list of objects in creation order, keyed by
    class name and unique id, each with its attributes and relationships
    by name. *)

Record ObjRef : Type := mkRef { ref_class : string; ref_uid : string }.

Global Instance ObjRef_eq_dec : EqDecision ObjRef := ltac:(solve_decision).

Inductive Value : Type :=
| VString (s : string)
| VU16 (n : N)
| VU32 (n : N)
| VObj (r : ObjRef)
| VObjs (rs : list ObjRef).

Record ConfigObject : Type :=
  mkObj { obj_ref : ObjRef; obj_fields : gmap string Value }.

Abbreviation Store := (list ConfigObject).

Definition refs (st : Store) : list ObjRef := obj_ref <$> st.

Definition set_field (name : string) (v : Value) (o : ConfigObject) : ConfigObject :=
  mkObj (obj_ref o) (<[name := v]> (obj_fields o)).

Definition alter_obj (r : ObjRef) (f : ConfigObject → ConfigObject) (st : Store) : Store :=
  (λ o, if decide (obj_ref o = r) then f o else o) <$> st.

(** The object stored under a reference. *)
Definition get_obj (r : ObjRef) (st : Store) : option ConfigObject :=
  List.find (λ o, bool_decide (obj_ref o = r)) st.

(** The value of one attribute or relationship of a stored object. *)
Definition get_field (r : ObjRef) (name : string) (st : Store) : option Value :=
  o ← get_obj r st; obj_fields o !! name.

(** ** Issues and outcomes *)

Inductive Issue : Type :=
| BadConf (msg : string)
| StoreError (r : ObjRef).

Inductive Outcome (A : Type) : Type :=
| Done (a : A)
| Thrown (e : Issue)
| NullDeref.
Arguments Done {A} a.
Arguments Thrown {A} e.
Arguments NullDeref {A}.

(** A computation over the database that returns, throws or dereferences
    a null pointer; the database it leaves behind is part of the result in
    all three cases. *)
Definition M (A : Type) : Type := Store → Outcome A * Store.

Definition ret {A} (a : A) : M A := λ st, (Done a, st).

Definition bind {A B} (m : M A) (k : A → M B) : M B :=
  λ st, match m st with
        | (Done a, st') => k a st'
        | (Thrown e, st') => (Thrown e, st')
        | (NullDeref, st') => (NullDeref, st')
        end.

Definition throw {A} (e : Issue) : M A := λ st, (Thrown e, st).

(** [p->...] on a pointer [p]. *)
Definition deref {A} (p : option A) : M A :=
  λ st, match p with Some a => (Done a, st) | None => (NullDeref, st) end.

Notation "'let*' x := c1 'in' c2" := (bind c1 (λ x, c2))
  (at level 10, x pattern, c1 at level 100, c2 at level 200).
Notation "c1 ;;; c2" := (bind c1 (λ _, c2))
  (at level 100, c2 at level 200, right associativity).

(** Modelled from the spec: [confdb->create(dbfile, cls, uid, obj)] is a
    call into the external [oksdbinterfaces] library.  It fails with a
    store error on an id that already exists in the class, and otherwise
    adds an object without attributes and hands back its handle. *)
Definition create (cls uid : string) : M ObjRef :=
  λ st, let r := mkRef cls uid in
        if bool_decide (r ∈ refs st) then (Thrown (StoreError r), st)
        else (Done r, st ++ [mkObj r ∅]).

(** Modelled from the spec: [obj.set_by_val<T>(name, v)],
    [obj.set_obj(name, &o)] and [obj.set_objs(name, {...})] are calls into
    the external [oksdbinterfaces] library.  They overwrite one attribute
    or relationship of the object the handle denotes. *)
Definition set_by_val (obj : ObjRef) (name : string) (v : Value) : M unit :=
  λ st, (Done tt, alter_obj obj (set_field name v) st).
Definition set_obj (obj : ObjRef) (name : string) (o : ObjRef) : M unit :=
  set_by_val obj name (VObj o).
Definition set_objs (obj : ObjRef) (name : string) (os : list ObjRef) : M unit :=
  set_by_val obj name (VObjs os).

(** Modelled from the spec: [confdb->get<coredal::Connection>(uid)] is a
    call into the external [oksdbinterfaces] library, the database's
    [get(className, uniqueId)] with the base class [Connection] for class
    name.  It looks an object up by its unique id alone among the objects
    of [Connection] and of the classes derived from it, and hands back a
    null pointer when there is none.  Which classes derive from
    [Connection] is the schema's business, and which object is handed back
    when several carry the id is the library's: both are parameters of the
    model.  [choose] is given the candidates in creation order. *)
Class ConnectionLookup : Type := {
  is_connection : string → bool;
  choose : list ObjRef → option ObjRef;
  choose_elem_of : ∀ rs r, choose rs = Some r → r ∈ rs;
  choose_is_Some : ∀ rs, rs ≠ [] → is_Some (choose rs) }.

(** The lookup in a database that holds the objects [rs]. *)
Definition lookup_connection {lookup : ConnectionLookup} (uid : string) (rs : list ObjRef)
  : option ObjRef :=
  choose (filter (λ r, is_connection (ref_class r) = true ∧ ref_uid r = uid) rs).

Definition get_connection {lookup : ConnectionLookup} (uid : string) : M (option ObjRef) :=
  λ st, (Done (lookup_connection uid (refs st)), st).

(** Sequential iteration of a loop body over a container, threading the
    loop's local variables. *)
Fixpoint for_each {A S : Type} (body : A → S → M S) (l : list A) (s : S) : M S :=
  match l with
  | [] => ret s
  | a :: l' => let* s' := body a s in for_each body l' s'
  end.

(** ** The schema objects read by [generate_modules]

    Attribute accessors return values ([uint16_t] for a port, [uint32_t]
    for a capacity or a source id); single-valued relationship accessors
    return pointers, hence options. *)

Record QueueDescriptor : Type := {
  qd_data_type : string;
  qd_queue_type : string;
  qd_capacity : N }.

Record NetworkConnectionDescriptor : Type := {
  nd_uid_base : string;
  nd_data_type : string;
  nd_connection_type : string;
  nd_uri : string;
  nd_port : N }.

Record QueueConnectionRule : Type := {
  qr_destination_class : string;
  qr_descriptor : option QueueDescriptor }.

Record NetworkConnectionRule : Type := {
  nr_endpoint_class : string;
  nr_descriptor : option NetworkConnectionDescriptor }.

Record LinkHandlerConf : Type := {
  lh_config_object : ObjRef;
  lh_template_for : string }.

Record DataReaderConf : Type := {
  dr_config_object : ObjRef;
  dr_template_for : string }.

Record TPHandlerConf : Type := {
  tph_config_object : ObjRef }.

Section WithSession.

(** The session is only ever passed to the [disabled] predicate of a
    component. *)
Context {Session : Type} {lookup : ConnectionLookup}.

Record DROStreamConf : Type := {
  st_UID : string;
  st_src_id : N;
  st_disabled : Session → bool }.

(** What a ReadoutGroup contains: [cast<DROStreamConf>()] succeeds on
    [IsStream] only. *)
Inductive GroupResource : Type :=
| IsStream (stream : DROStreamConf)
| NotStream (uid : string) (disabled : Session → bool).

Record ReadoutGroup : Type := {
  rg_UID : string;
  rg_disabled : Session → bool;
  rg_contains : list GroupResource }.

(** What the application contains: [cast<ReadoutGroup>()] succeeds on
    [IsGroup] only. *)
Inductive AppResource : Type :=
| IsGroup (rset : ReadoutGroup)
| NotGroup (uid : string) (disabled : Session → bool).

Definition res_disabled (r : AppResource) (session : Session) : bool :=
  match r with
  | IsGroup rset => rg_disabled rset session
  | NotGroup _ d => d session
  end.

Record ReadoutApplication : Type := {
  UID : string;
  get_link_handler : option LinkHandlerConf;
  get_queue_rules : list QueueConnectionRule;
  get_network_rules : list NetworkConnectionRule;
  get_tp_handler : option TPHandlerConf;
  get_tp_src_id : N;
  get_data_reader : option DataReaderConf;
  get_contains : list AppResource }.

(** ** Rule scan (lines 66-90) *)

Definition is_dlh_class (dlhClass c : string) : bool :=
  String.eqb c "DLH" || String.eqb c dlhClass.

Definition is_tp_class (c : string) : bool := String.eqb c "TPHandler".

(** One iteration of either rule loop: [cls] is the rule's destination or
    endpoint class, [desc] its descriptor, the pair is
    [(dlhDesc, tpDesc)]. *)
Definition rule_step {D : Type} (dlhClass : string)
    (acc : option D * option D) (rule : string * option D) : option D * option D :=
  let '(cls, desc) := rule in
  if is_dlh_class dlhClass cls then (desc, snd acc)
  else if is_tp_class cls then (fst acc, desc)
  else acc.

Definition scan_rules {D : Type} (dlhClass : string)
    (rules : list (string * option D)) : option D * option D :=
  fold_left (rule_step dlhClass) rules (None, None).

Definition queue_rule (r : QueueConnectionRule) : string * option QueueDescriptor :=
  (qr_destination_class r, qr_descriptor r).

Definition network_rule (r : NetworkConnectionRule)
  : string * option NetworkConnectionDescriptor :=
  (nr_endpoint_class r, nr_descriptor r).

(** [(dlhInputQDesc, tpInputQDesc)] after the first loop. *)
Definition scan_queue_rules (dlhClass : string) (app : ReadoutApplication) :=
  scan_rules dlhClass (queue_rule <$> get_queue_rules app).

(** [(dlhNetDesc, tpNetDesc)] after the second loop. *)
Definition scan_network_rules (dlhClass : string) (app : ReadoutApplication) :=
  scan_rules dlhClass (network_rule <$> get_network_rules app).

(** ** TP handler and its connections (lines 92-131)

    Returns the handle [tpQueueObj] (null unless a TP handler was
    configured) and the module list. *)

Definition NO_TP_NET : string := "No tpHandler network descriptor given".
Definition NO_TP_QUEUE : string := "No tpHandler input queue descriptor given".
Definition NO_TP_SRC : string := "No TPHandler src_id given".
Definition NO_READER : string := "No DataReader configuration given".
Definition NOT_GROUP : string :=
  "ReadoutApplication contains something other than ReadoutGroup".
Definition NOT_STREAM : string :=
  "ReadoutGroup contains something other than DROStreamConf".

Definition create_tp_handler (app : ReadoutApplication)
    (tpInputQDesc : option QueueDescriptor)
    (tpNetDesc : option NetworkConnectionDescriptor)
    (modules : list ObjRef) : M (option ObjRef * list ObjRef) :=
  match get_tp_handler app with
  | None => ret (None, modules)
  | Some tpHandlerConf =>
    match tpNetDesc with
    | None => throw (BadConf NO_TP_NET)
    | Some tpNetDesc =>
      match tpInputQDesc with
      | None => throw (BadConf NO_TP_QUEUE)
      | Some tpInputQDesc =>
        let tpsrc := get_tp_src_id app in
        if tpsrc =? 0 then throw (BadConf NO_TP_SRC)
        else
          let tpQueueUid := "inputToTPH-" +:+ pretty tpsrc in
          let* tpQueueObj := create "Queue" tpQueueUid in
          set_by_val tpQueueObj "data_type" (VString (qd_data_type tpInputQDesc)) ;;;
          set_by_val tpQueueObj "queue_type" (VString (qd_queue_type tpInputQDesc)) ;;;
          set_by_val tpQueueObj "capacity" (VU32 (qd_capacity tpInputQDesc)) ;;;
          let tpNetUid := "ReqToTPH-" +:+ pretty tpsrc in
          let* tpNetObj := create "NetworkConnection" tpNetUid in
          set_by_val tpNetObj "data_type" (VString (nd_data_type tpNetDesc)) ;;;
          set_by_val tpNetObj "connection_type" (VString (nd_connection_type tpNetDesc)) ;;;
          set_by_val tpNetObj "uri" (VString (nd_uri tpNetDesc)) ;;;
          set_by_val tpNetObj "port" (VU16 (nd_port tpNetDesc)) ;;;
          let tphConfObj := tph_config_object tpHandlerConf in
          let tpUid := "tphandler-" +:+ pretty tpsrc in
          let* tpObj := create "TPHandler" tpUid in
          set_by_val tpObj "source_id" (VU32 tpsrc) ;;;
          set_obj tpObj "handler_configuration" tphConfObj ;;;
          set_objs tpObj "inputs" [tpQueueObj; tpNetObj] ;;;
          ret (Some tpQueueObj, modules ++ [tpObj])
      end
    end
  end.

(** ** One stream of a group (lines 154-204)

    The loop's variables are [(port_offset, outputQueues, modules)];
    [outputQueues] holds the pointers line 201 gets from the lookup, which
    are used at line 214 only.  The test [if (tpHandlerConf)] of line 170
    is the test that [tpQueueObj] was created: the two hold together once
    line 131 is passed. *)

Definition StreamVars : Type := Z * list (option ObjRef) * list ObjRef.

Definition stream_body (session : Session) (dlhConf : LinkHandlerConf)
    (dlhInputQDesc : option QueueDescriptor)
    (dlhNetDesc : option NetworkConnectionDescriptor)
    (tpQueueObj : option ObjRef)
    (res : GroupResource) (vars : StreamVars) : M StreamVars :=
  let '(port_offset, outputQueues, modules) := vars in
  let dlhClass := lh_template_for dlhConf in
  match res with
  | NotStream _ _ => throw (BadConf NOT_STREAM)
  | IsStream stream =>
    if st_disabled stream session then ret vars
    else
      let id := st_src_id stream in
      let uid := "DLH-" +:+ pretty id in
      let* dlhObj := create dlhClass uid in
      set_by_val dlhObj "source_id" (VU32 id) ;;;
      set_obj dlhObj "handler_configuration" (lh_config_object dlhConf) ;;;
      match tpQueueObj with
      | Some q => set_objs dlhObj "outputs" [q]
      | None => ret tt
      end ;;;
      let queueUid := "inputToDLH-" +:+ pretty id in
      let* queueObj := create "Queue" queueUid in
      let* qdesc := deref dlhInputQDesc in
      set_by_val queueObj "data_type" (VString (qd_data_type qdesc)) ;;;
      set_by_val queueObj "queue_type" (VString (qd_queue_type qdesc)) ;;;
      set_by_val queueObj "capacity" (VU32 (qd_capacity qdesc)) ;;;
      let* ndesc := deref dlhNetDesc in
      let netUid := nd_uid_base ndesc +:+ setw_fill 8 "0" (to_hex id) in
      let* netObj := create "NetworkConnection" netUid in
      set_by_val netObj "data_type" (VString (nd_data_type ndesc)) ;;;
      set_by_val netObj "connection_type" (VString (nd_connection_type ndesc)) ;;;
      set_by_val netObj "uri" (VString (nd_uri ndesc)) ;;;
      let port := nd_port ndesc in
      let port := if port =? 0 then port else to_uint16 (Z.of_N port + port_offset) in
      set_by_val netObj "port" (VU16 port) ;;;
      let port_offset := (port_offset + 1)%Z in
      let* queue := get_connection queueUid in
      let* queueCfg := deref queue in
      let* net := get_connection netUid in
      let* netCfg := deref net in
      let inputObjs := [queueCfg; netCfg] in
      set_objs dlhObj "inputs" inputObjs ;;;
      let* queue := get_connection queueUid in
      ret (port_offset, outputQueues ++ [queue], modules ++ [dlhObj])
  end.

(** ** One resource of the application (lines 144-220)

    The loop's variables are [(rnum, port_offset, modules)]. *)

Definition GroupVars : Type := Z * Z * list ObjRef.

Definition group_body (app : ReadoutApplication) (session : Session)
    (dlhConf : LinkHandlerConf) (rdrConf : DataReaderConf)
    (dlhInputQDesc : option QueueDescriptor)
    (dlhNetDesc : option NetworkConnectionDescriptor)
    (tpQueueObj : option ObjRef)
    (roGroup : AppResource) (vars : GroupVars) : M GroupVars :=
  let '(rnum, port_offset, modules) := vars in
  if res_disabled roGroup session then ret vars
  else
    match roGroup with
    | NotGroup _ _ => throw (BadConf NOT_GROUP)
    | IsGroup rset =>
      let* (port_offset, outputQueues, modules) :=
        for_each (stream_body session dlhConf dlhInputQDesc dlhNetDesc tpQueueObj)
                 (rg_contains rset) (port_offset, [], modules) in
      let readerUid := "datareader-" +:+ UID app +:+ "-" +:+ pretty rnum in
      let readerClass := dr_template_for rdrConf in
      let* readerObj := create readerClass readerUid in
      let* qObjs :=
        for_each (λ q qObjs, let* qCfg := deref q in ret (qObjs ++ [qCfg]))
                 outputQueues [] in
      set_objs readerObj "outputs" qObjs ;;;
      set_obj readerObj "configuration" (dr_config_object rdrConf) ;;;
      ret ((rnum + 1)%Z, port_offset, modules ++ [readerObj])
    end.

(** ** [ReadoutApplication::generate_modules] (lines 55-223) *)

Definition generate_modules (app : ReadoutApplication) (session : Session)
  : M (list ObjRef) :=
  let modules := [] in
  let* dlhConf := deref (get_link_handler app) in
  let dlhClass := lh_template_for dlhConf in
  let '(dlhInputQDesc, tpInputQDesc) := scan_queue_rules dlhClass app in
  let '(dlhNetDesc, tpNetDesc) := scan_network_rules dlhClass app in
  let* (tpQueueObj, modules) :=
    create_tp_handler app tpInputQDesc tpNetDesc modules in
  match get_data_reader app with
  | None => throw (BadConf NO_READER)
  | Some rdrConf =>
    let* (_, _, modules) :=
      for_each (group_body app session dlhConf rdrConf dlhInputQDesc dlhNetDesc tpQueueObj)
               (get_contains app) (0%Z, 0%Z, modules) in
    ret modules
  end.

End WithSession.

Arguments DROStreamConf : clear implicits.
Arguments GroupResource : clear implicits.
Arguments ReadoutGroup : clear implicits.
Arguments AppResource : clear implicits.
Arguments ReadoutApplication : clear implicits.

(** * Specification

    What the verification below says about the model: how the formatted
    numbers read back, which rule a scan selects, and each object of a
    returning call in its final state. *)

(** ** Created objects

    Each object in its final state, written as the setter calls the code
    applies to it, in the order it applies them. *)

(** [Fresh st objs]: the objects [objs] can be created one after the other
    in [st], none of their references is taken. *)
Definition Fresh (st objs : Store) : Prop :=
  NoDup (refs objs) ∧ ∀ r, r ∈ refs objs → r ∉ refs st.

Definition dlh_ref (dlhClass : string) (id : N) : ObjRef :=
  mkRef dlhClass ("DLH-" +:+ pretty id).
Definition queue_ref (id : N) : ObjRef :=
  mkRef "Queue" ("inputToDLH-" +:+ pretty id).
Definition net_ref (uid_base : string) (id : N) : ObjRef :=
  mkRef "NetworkConnection" (uid_base +:+ setw_fill 8 "0" (to_hex id)).
Definition reader_ref (readerClass appUid : string) (rnum : Z) : ObjRef :=
  mkRef readerClass ("datareader-" +:+ appUid +:+ "-" +:+ pretty rnum).
Definition tp_queue_ref (tpsrc : N) : ObjRef :=
  mkRef "Queue" ("inputToTPH-" +:+ pretty tpsrc).
Definition tp_net_ref (tpsrc : N) : ObjRef :=
  mkRef "NetworkConnection" ("ReqToTPH-" +:+ pretty tpsrc).
Definition tp_ref (tpsrc : N) : ObjRef :=
  mkRef "TPHandler" ("tphandler-" +:+ pretty tpsrc).

(** The port line 190 gives the stream connection created when
    [port_offset] connections were created before it. *)
Definition stream_port (base : N) (port_offset : Z) : N :=
  if base =? 0 then base else to_uint16 (Z.of_N base + port_offset).

Definition with_outputs (tpQueueObj : option ObjRef) (o : ConfigObject) : ConfigObject :=
  match tpQueueObj with
  | Some q => set_field "outputs" (VObjs [q]) o
  | None => o
  end.

(** The references of the three objects of one stream, in creation
    order. *)
Definition stream_refs (dlhClass uid_base : string) (id : N) : list ObjRef :=
  [dlh_ref dlhClass id; queue_ref id; net_ref uid_base id].

(** What lines 195 and 196 find for the stream of source id [id] in a
    database that holds the objects [rs]: the connections looked up under
    the queue's and under the network connection's unique id. *)
Definition stream_inputs {lookup : ConnectionLookup} (rs : list ObjRef) (uid_base : string)
    (id : N) : list ObjRef :=
  omap (λ uid, lookup_connection uid rs)
       [ref_uid (queue_ref id); ref_uid (net_ref uid_base id)].

(** What line 201 finds. *)
Definition stream_output {lookup : ConnectionLookup} (rs : list ObjRef) (id : N)
  : option ObjRef :=
  lookup_connection (ref_uid (queue_ref id)) rs.

Definition dlh_obj (dlhConf : LinkHandlerConf) (tpQueueObj : option ObjRef)
    (inputs : list ObjRef) (id : N) : ConfigObject :=
  set_field "inputs" (VObjs inputs)
    (with_outputs tpQueueObj
      (set_field "handler_configuration" (VObj (lh_config_object dlhConf))
        (set_field "source_id" (VU32 id)
          (mkObj (dlh_ref (lh_template_for dlhConf) id) ∅)))).

Definition queue_obj (qdesc : QueueDescriptor) (id : N) : ConfigObject :=
  set_field "capacity" (VU32 (qd_capacity qdesc))
    (set_field "queue_type" (VString (qd_queue_type qdesc))
      (set_field "data_type" (VString (qd_data_type qdesc))
        (mkObj (queue_ref id) ∅))).

Definition net_obj (ndesc : NetworkConnectionDescriptor) (port_offset : Z) (id : N)
  : ConfigObject :=
  set_field "port" (VU16 (stream_port (nd_port ndesc) port_offset))
    (set_field "uri" (VString (nd_uri ndesc))
      (set_field "connection_type" (VString (nd_connection_type ndesc))
        (set_field "data_type" (VString (nd_data_type ndesc))
          (mkObj (net_ref (nd_uid_base ndesc) id) ∅)))).

(** The objects of one stream, created in a database that held the
    objects [rs]: the lookups of lines 195 and 196 see the three new
    objects as well. *)
Definition stream_objs {lookup : ConnectionLookup} (rs : list ObjRef)
    (dlhConf : LinkHandlerConf) (tpQueueObj : option ObjRef)
    (qdesc : QueueDescriptor) (ndesc : NetworkConnectionDescriptor)
    (port_offset : Z) (id : N) : list ConfigObject :=
  let rs' := rs ++ stream_refs (lh_template_for dlhConf) (nd_uid_base ndesc) id in
  [dlh_obj dlhConf tpQueueObj (stream_inputs rs' (nd_uid_base ndesc) id) id;
   queue_obj qdesc id;
   net_obj ndesc port_offset id].

Global Arguments stream_objs : simpl never.

Definition reader_obj (rdrConf : DataReaderConf) (appUid : string) (rnum : Z)
    (outputs : list ObjRef) : ConfigObject :=
  set_field "configuration" (VObj (dr_config_object rdrConf))
    (set_field "outputs" (VObjs outputs)
      (mkObj (reader_ref (dr_template_for rdrConf) appUid rnum) ∅)).

Definition tp_queue_obj (qdesc : QueueDescriptor) (tpsrc : N) : ConfigObject :=
  set_field "capacity" (VU32 (qd_capacity qdesc))
    (set_field "queue_type" (VString (qd_queue_type qdesc))
      (set_field "data_type" (VString (qd_data_type qdesc))
        (mkObj (tp_queue_ref tpsrc) ∅))).

Definition tp_net_obj (ndesc : NetworkConnectionDescriptor) (tpsrc : N) : ConfigObject :=
  set_field "port" (VU16 (nd_port ndesc))
    (set_field "uri" (VString (nd_uri ndesc))
      (set_field "connection_type" (VString (nd_connection_type ndesc))
        (set_field "data_type" (VString (nd_data_type ndesc))
          (mkObj (tp_net_ref tpsrc) ∅)))).

Definition tp_obj (tpHandlerConf : TPHandlerConf) (tpsrc : N) : ConfigObject :=
  set_field "inputs" (VObjs [tp_queue_ref tpsrc; tp_net_ref tpsrc])
    (set_field "handler_configuration" (VObj (tph_config_object tpHandlerConf))
      (set_field "source_id" (VU32 tpsrc)
        (mkObj (tp_ref tpsrc) ∅))).

Definition tp_objs (tpHandlerConf : TPHandlerConf) (qdesc : QueueDescriptor)
    (ndesc : NetworkConnectionDescriptor) (tpsrc : N) : list ConfigObject :=
  [tp_queue_obj qdesc tpsrc; tp_net_obj ndesc tpsrc; tp_obj tpHandlerConf tpsrc].

(** ** Created objects, by group

    A processed group is given by the source ids of its enabled streams;
    [rs] are the objects the database holds when the group, or the stream,
    is reached. *)

Fixpoint streams_objs {lookup : ConnectionLookup} (rs : list ObjRef)
    (dlhConf : LinkHandlerConf) (tpq : option ObjRef)
    (qdesc : QueueDescriptor) (ndesc : NetworkConnectionDescriptor)
    (port_offset : Z) (ids : list N) : list ConfigObject :=
  match ids with
  | [] => []
  | id :: ids' =>
    stream_objs rs dlhConf tpq qdesc ndesc port_offset id
      ++ streams_objs (rs ++ stream_refs (lh_template_for dlhConf) (nd_uid_base ndesc) id)
           dlhConf tpq qdesc ndesc (port_offset + 1) ids'
  end.

(** The pointers line 201 collects for the streams of one group. *)
Fixpoint streams_outputs {lookup : ConnectionLookup} (rs : list ObjRef)
    (dlhClass uid_base : string) (ids : list N) : list (option ObjRef) :=
  match ids with
  | [] => []
  | id :: ids' =>
    let rs' := rs ++ stream_refs dlhClass uid_base id in
    stream_output rs' id :: streams_outputs rs' dlhClass uid_base ids'
  end.

(** No stream object exists when a link-handler descriptor is unset. *)
Definition group_stream_objs {lookup : ConnectionLookup} (rs : list ObjRef)
    (dlhConf : LinkHandlerConf) (tpq : option ObjRef)
    (dq : option QueueDescriptor) (dn : option NetworkConnectionDescriptor)
    (port_offset : Z) (ids : list N) : list ConfigObject :=
  match dq, dn with
  | Some qdesc, Some ndesc => streams_objs rs dlhConf tpq qdesc ndesc port_offset ids
  | _, _ => []
  end.

(** The [outputs] of the reader of one group: what lines 213-215 make of
    the pointers collected. *)
Definition group_outputs {lookup : ConnectionLookup} (rs : list ObjRef)
    (dlhClass uid_base : string) (ids : list N) : list ObjRef :=
  omap id (streams_outputs rs dlhClass uid_base ids).

(** The references of the objects of one group, in creation order. *)
Definition group_refs (dlhClass readerClass appUid uid_base : string) (rnum : Z)
    (ids : list N) : list ObjRef :=
  (ids ≫= stream_refs dlhClass uid_base) ++ [reader_ref readerClass appUid rnum].

Fixpoint groups_objs {lookup : ConnectionLookup} (rs : list ObjRef)
    (dlhConf : LinkHandlerConf) (rdrConf : DataReaderConf)
    (appUid : string) (tpq : option ObjRef)
    (dq : option QueueDescriptor) (dn : option NetworkConnectionDescriptor)
    (rnum port_offset : Z) (groups : list (list N)) : list ConfigObject :=
  match groups with
  | [] => []
  | ids :: groups' =>
    let dlhClass := lh_template_for dlhConf in
    let uid_base := from_option nd_uid_base "" dn in
    group_stream_objs rs dlhConf tpq dq dn port_offset ids
      ++ reader_obj rdrConf appUid rnum (group_outputs rs dlhClass uid_base ids)
      :: groups_objs
           (rs ++ group_refs dlhClass (dr_template_for rdrConf) appUid uid_base rnum ids)
           dlhConf rdrConf appUid tpq dq dn
           (rnum + 1) (port_offset + Z.of_nat (length ids)) groups'
  end.

(** Every lookup of line 201 found an object. *)
Fixpoint groups_found {lookup : ConnectionLookup} (rs : list ObjRef) (dlhClass readerClass appUid uid_base : string)
    (rnum : Z) (groups : list (list N)) : Prop :=
  match groups with
  | [] => True
  | ids :: groups' =>
    Forall is_Some (streams_outputs rs dlhClass uid_base ids) ∧
    groups_found (rs ++ group_refs dlhClass readerClass appUid uid_base rnum ids)
      dlhClass readerClass appUid uid_base (rnum + 1) groups'
  end.

Fixpoint groups_modules (dlhClass readerClass appUid : string) (rnum : Z)
    (groups : list (list N)) : list ObjRef :=
  match groups with
  | [] => []
  | ids :: groups' =>
    (dlh_ref dlhClass <$> ids)
      ++ reader_ref readerClass appUid rnum
      :: groups_modules dlhClass readerClass appUid (rnum + 1) groups'
  end.

(** ** Number formatting *)

(** Reading back a lowercase hexadecimal numeral. *)
Definition hex_digit_value (c : ascii) : option N :=
  let n := Ascii.N_of_ascii c in
  if (48 <=? n) && (n <=? 57) then Some (n - 48)
  else if (97 <=? n) && (n <=? 102) then Some (n - 87)
  else None.

Fixpoint of_hex_go (s : string) (acc : N) : option N :=
  match s with
  | EmptyString => Some acc
  | String c s' =>
    match hex_digit_value c with
    | Some d => of_hex_go s' (16 * acc + d)
    | None => None
    end
  end.

Definition of_hex (s : string) : option N := of_hex_go s 0.

(** ** Rule scan *)

(** The descriptor of the last rule, in scan order, whose class satisfies
    [role]; unset when no rule does. *)
Definition last_matching {D : Type} (role : string → bool)
    (rules : list (string * option D)) : option D :=
  last (filter (λ rule, role rule.1 = true) rules) ≫= snd.

Definition tp_only (dlhClass : string) (c : string) : bool :=
  negb (is_dlh_class dlhClass c) && is_tp_class c.

(** ** Identifiers *)

Fixpoint groups_refs (dlhClass readerClass appUid uid_base : string) (rnum : Z)
    (groups : list (list N)) : list ObjRef :=
  match groups with
  | [] => []
  | ids :: groups' =>
    (ids ≫= stream_refs dlhClass uid_base)
      ++ reader_ref readerClass appUid rnum
      :: groups_refs dlhClass readerClass appUid uid_base (rnum + 1) groups'
  end.

(** ** Ports *)

(** The reference of a stored object and its port, if it has one. *)
Definition port_of (o : ConfigObject) : ObjRef * option Value :=
  (obj_ref o, obj_fields o !! "port").

(** ** Issues a computation can throw *)

(** [m] throws nothing but the database's own errors. *)
Definition only_store_errors {A : Type} (m : M A) : Prop :=
  ∀ st e st', m st = (Thrown e, st') → ∃ r, e = StoreError r.

Section SpecWithSession.

Context {Session : Type} {lookup : ConnectionLookup}.
Implicit Types (session : Session) (app : ReadoutApplication Session).

(** ** What a call processes *)

(** Source ids of the streams of a group that are enabled in the session,
    in declaration order. *)
Definition stream_id session (res : GroupResource Session) : option N :=
  match res with
  | IsStream stream => if st_disabled stream session then None else Some (st_src_id stream)
  | NotStream _ _ => None
  end.

Definition enabled_ids session (members : list (GroupResource Session)) : list N :=
  omap (stream_id session) members.

Definition group_ids session (res : AppResource Session) : option (list N) :=
  match res with
  | IsGroup rset =>
    if rg_disabled rset session then None
    else Some (enabled_ids session (rg_contains rset))
  | NotGroup _ _ => None
  end.

(** For each processed group, in declaration order, the source ids of its
    enabled streams. *)
Definition processed_groups session (resources : list (AppResource Session))
  : list (list N) :=
  omap (group_ids session) resources.

Definition is_stream (res : GroupResource Session) : Prop :=
  match res with IsStream _ => True | NotStream _ _ => False end.

(** Every resource the call does not skip is a group, and holds nothing
    but streams. *)
Definition well_typed session (res : AppResource Session) : Prop :=
  res_disabled res session = false →
  match res with
  | IsGroup rset => Forall is_stream (rg_contains rset)
  | NotGroup _ _ => False
  end.

(** ** What a returning call leaves behind *)

(** [tpQueueObj] as the stream loop sees it. *)
Definition tp_queue_of app : option ObjRef :=
  match get_tp_handler app with
  | Some _ => Some (tp_queue_ref (get_tp_src_id app))
  | None => None
  end.

Definition tp_modules app : list ObjRef :=
  match get_tp_handler app with
  | Some _ => [tp_ref (get_tp_src_id app)]
  | None => []
  end.

Definition created_tp_objs app (tq : option QueueDescriptor)
    (tn : option NetworkConnectionDescriptor) : list ConfigObject :=
  match get_tp_handler app, tq, tn with
  | Some tpHandlerConf, Some qdesc, Some ndesc =>
    tp_objs tpHandlerConf qdesc ndesc (get_tp_src_id app)
  | _, _, _ => []
  end.

Definition tp_refs app : list ObjRef :=
  match get_tp_handler app with
  | Some _ =>
    [tp_queue_ref (get_tp_src_id app); tp_net_ref (get_tp_src_id app);
     tp_ref (get_tp_src_id app)]
  | None => []
  end.

(** Everything a call that returns has created, in creation order, in a
    database that held the objects [rs] before the call. *)
Definition created_objs (rs : list ObjRef) app session : list ConfigObject :=
  match get_link_handler app, get_data_reader app with
  | Some dlhConf, Some rdrConf =>
    let dlhClass := lh_template_for dlhConf in
    created_tp_objs app (scan_queue_rules dlhClass app).2 (scan_network_rules dlhClass app).2
      ++ groups_objs (rs ++ tp_refs app) dlhConf rdrConf (UID app) (tp_queue_of app)
           (scan_queue_rules dlhClass app).1 (scan_network_rules dlhClass app).1
           0 0 (processed_groups session (get_contains app))
  | _, _ => []
  end.

(** The module list a call that returns hands back. *)
Definition returned_modules app session : list ObjRef :=
  match get_link_handler app, get_data_reader app with
  | Some dlhConf, Some rdrConf =>
    tp_modules app
      ++ groups_modules (lh_template_for dlhConf) (dr_template_for rdrConf) (UID app) 0
           (processed_groups session (get_contains app))
  | _, _ => []
  end.

(** What a call that returns has found configured. *)
Record Configured app session : Prop := {
  cfg_link_handler : is_Some (get_link_handler app);
  cfg_data_reader : is_Some (get_data_reader app);
  cfg_tp : ∀ dlhConf, get_link_handler app = Some dlhConf →
    is_Some (get_tp_handler app) →
    is_Some (scan_queue_rules (lh_template_for dlhConf) app).2 ∧
    is_Some (scan_network_rules (lh_template_for dlhConf) app).2 ∧
    get_tp_src_id app ≠ 0;
  cfg_dlh : ∀ dlhConf, get_link_handler app = Some dlhConf →
    concat (processed_groups session (get_contains app)) ≠ [] →
    is_Some (scan_queue_rules (lh_template_for dlhConf) app).1 ∧
    is_Some (scan_network_rules (lh_template_for dlhConf) app).1 }.

(** The references of the objects a returning call creates, in creation
    order; the address template is only read when a stream is enabled. *)
Definition created_refs app session : list ObjRef :=
  match get_link_handler app, get_data_reader app with
  | Some dlhConf, Some rdrConf =>
    tp_refs app
      ++ groups_refs (lh_template_for dlhConf) (dr_template_for rdrConf) (UID app)
           (from_option nd_uid_base "" (scan_network_rules (lh_template_for dlhConf) app).1)
           0 (processed_groups session (get_contains app))
  | _, _ => []
  end.

(** ** What the identifiers and the ports are made of *)

(** The parts of an application and a session that the identifiers, the
    ports and the module list of a call are computed from: the
    application's UID, the classes the two templates name, the address
    template and the base port of the link handler's network descriptor,
    the source id of the TP handler and the port of its network descriptor
    when a TP handler is configured, and the source ids of the enabled
    streams of the processed groups. *)
Record Naming : Type := {
  nm_app_uid : string;
  nm_handler_class : option string;
  nm_reader_class : option string;
  nm_address : option (string * N);
  nm_tp : option (N * option N);
  nm_groups : list (list N) }.

Definition naming app session : Naming :=
  {| nm_app_uid := UID app;
     nm_handler_class := lh_template_for <$> get_link_handler app;
     nm_reader_class := dr_template_for <$> get_data_reader app;
     nm_address :=
       dlhConf ← get_link_handler app;
       ndesc ← (scan_network_rules (lh_template_for dlhConf) app).1;
       Some (nd_uid_base ndesc, nd_port ndesc);
     nm_tp :=
       match get_tp_handler app with
       | Some _ =>
         Some (get_tp_src_id app,
               dlhConf ← get_link_handler app;
               ndesc ← (scan_network_rules (lh_template_for dlhConf) app).2;
               Some (nd_port ndesc))
       | None => None
       end;
     nm_groups := processed_groups session (get_contains app) |}.

End SpecWithSession.

(** * Scenarios *)

Module Scenario.

(** A schema in which [Queue] and [NetworkConnection] derive from
    [Connection], and a library that hands back the oldest object of a
    unique id. *)
#[export] Instance oldest_connection : ConnectionLookup :=
  {| is_connection c := bool_decide (c ∈ ["Connection"; "Queue"; "NetworkConnection"]);
     choose := head;
     choose_elem_of := head_Some_elem_of;
     choose_is_Some rs := proj2 (head_is_Some rs) |}.

(** The same schema, and a library that hands back the newest. *)
Definition newest_connection : ConnectionLookup :=
  {| is_connection c := bool_decide (c ∈ ["Connection"; "Queue"; "NetworkConnection"]);
     choose := last;
     choose_elem_of := last_Some_elem_of;
     choose_is_Some rs := proj2 (last_is_Some rs) |}.

Definition enabled : unit → bool := λ _, false.
Definition disabled : unit → bool := λ _, true.

Definition lh_conf : LinkHandlerConf :=
  {| lh_config_object := mkRef "LinkHandlerConf" "def-link-handler";
     lh_template_for := "DLH" |}.

Definition rdr_conf : DataReaderConf :=
  {| dr_config_object := mkRef "DataReaderConf" "def-data-reader";
     dr_template_for := "DataReader" |}.

Definition tph_conf : TPHandlerConf :=
  {| tph_config_object := mkRef "TPHandlerConf" "def-tp-handler" |}.

Definition q_desc : QueueDescriptor :=
  {| qd_data_type := "WIBFrame"; qd_queue_type := "kFollySPSCQueue"; qd_capacity := 10 |}.

Definition n_desc (port : N) : NetworkConnectionDescriptor :=
  {| nd_uid_base := "tp_conn_"; nd_data_type := "DataRequest";
     nd_connection_type := "kSendRecv"; nd_uri := "tcp://localhost";
     nd_port := port |}.

Definition q_rule (cls : string) : QueueConnectionRule :=
  {| qr_destination_class := cls; qr_descriptor := Some q_desc |}.

Definition n_rule (cls : string) (port : N) : NetworkConnectionRule :=
  {| nr_endpoint_class := cls; nr_descriptor := Some (n_desc port) |}.

Definition stream (id : N) (d : unit → bool) : GroupResource unit :=
  IsStream {| st_UID := "stream-" +:+ pretty id; st_src_id := id; st_disabled := d |}.

Definition group (uid : string) (d : unit → bool) (members : list (GroupResource unit))
  : AppResource unit :=
  IsGroup {| rg_UID := uid; rg_disabled := d; rg_contains := members |}.

(** Group G1 with stream 1 enabled and stream 2 disabled, no TP handler,
    base port 14000, address template ["tp_conn_"]. *)
Definition one_group_app : ReadoutApplication unit :=
  {| UID := "ru-01";
     get_link_handler := Some lh_conf;
     get_queue_rules := [q_rule "DLH"];
     get_network_rules := [n_rule "DLH" 14000];
     get_tp_handler := None;
     get_tp_src_id := 0;
     get_data_reader := Some rdr_conf;
     get_contains := [group "G1" enabled [stream 1 enabled; stream 2 disabled]] |}.

(** TP handler with source id 7, queue capacity 10, base port 15000; no
    group. *)
Definition tp_app : ReadoutApplication unit :=
  {| UID := "ru-01";
     get_link_handler := Some lh_conf;
     get_queue_rules := [q_rule "TPHandler"];
     get_network_rules := [n_rule "TPHandler" 15000];
     get_tp_handler := Some tph_conf;
     get_tp_src_id := 7;
     get_data_reader := Some rdr_conf;
     get_contains := [] |}.

(** Two enabled streams in two groups around a disabled group, base port
    65535. *)
Definition wrap_app : ReadoutApplication unit :=
  {| UID := "ru-01";
     get_link_handler := Some lh_conf;
     get_queue_rules := [q_rule "DLH"];
     get_network_rules := [n_rule "DLH" 65535];
     get_tp_handler := None;
     get_tp_src_id := 0;
     get_data_reader := Some rdr_conf;
     get_contains :=
       [group "G1" enabled [stream 1 enabled; stream 3 disabled];
        group "G2" disabled [stream 4 enabled];
        group "G3" enabled [stream 2 enabled]] |}.

(** TP handler, one group with one stream, and every rule present. *)
Definition full_app : ReadoutApplication unit :=
  {| UID := "ru-01";
     get_link_handler := Some lh_conf;
     get_queue_rules := [q_rule "DLH"; q_rule "TPHandler"];
     get_network_rules := [n_rule "DLH" 14000; n_rule "TPHandler" 15000];
     get_tp_handler := Some tph_conf;
     get_tp_src_id := 7;
     get_data_reader := Some rdr_conf;
     get_contains := [group "G1" enabled [stream 1 enabled]] |}.

(** No link handler configured. *)
Definition no_handler_app : ReadoutApplication unit :=
  {| UID := "ru-01";
     get_link_handler := None;
     get_queue_rules := [q_rule "DLH"];
     get_network_rules := [n_rule "DLH" 14000];
     get_tp_handler := None;
     get_tp_src_id := 0;
     get_data_reader := Some rdr_conf;
     get_contains := [group "G1" enabled [stream 1 enabled]] |}.

(** No data reader configured. *)
Definition no_reader_app : ReadoutApplication unit :=
  {| UID := "ru-01";
     get_link_handler := Some lh_conf;
     get_queue_rules := [q_rule "DLH"];
     get_network_rules := [n_rule "DLH" 14000];
     get_tp_handler := None;
     get_tp_src_id := 0;
     get_data_reader := None;
     get_contains := [group "G1" enabled [stream 1 enabled]] |}.

(** One enabled stream and no queue rule for the link handler. *)
Definition no_queue_rule_app : ReadoutApplication unit :=
  {| UID := "ru-01";
     get_link_handler := Some lh_conf;
     get_queue_rules := [];
     get_network_rules := [n_rule "DLH" 14000];
     get_tp_handler := None;
     get_tp_src_id := 0;
     get_data_reader := Some rdr_conf;
     get_contains := [group "G1" enabled [stream 1 enabled]] |}.

(** One enabled stream and no network rule for the link handler. *)
Definition no_network_rule_app : ReadoutApplication unit :=
  {| UID := "ru-01";
     get_link_handler := Some lh_conf;
     get_queue_rules := [q_rule "DLH"];
     get_network_rules := [];
     get_tp_handler := None;
     get_tp_src_id := 0;
     get_data_reader := Some rdr_conf;
     get_contains := [group "G1" enabled [stream 1 enabled]] |}.

(** The handler template names the class ["TPHandler"]. *)
Definition tp_class_conf : LinkHandlerConf :=
  {| lh_config_object := mkRef "LinkHandlerConf" "tp-link-handler";
     lh_template_for := "TPHandler" |}.

Definition tp_class_app : ReadoutApplication unit :=
  {| UID := "ru-01";
     get_link_handler := Some tp_class_conf;
     get_queue_rules := [q_rule "TPHandler"];
     get_network_rules := [n_rule "TPHandler" 15000];
     get_tp_handler := Some tph_conf;
     get_tp_src_id := 7;
     get_data_reader := Some rdr_conf;
     get_contains := [] |}.

(** Several rules for each role; the handler template names the class
    ["FDDLH"]. *)
Definition q_desc_cap (capacity : N) : QueueDescriptor :=
  {| qd_data_type := "WIBFrame"; qd_queue_type := "kFollySPSCQueue";
     qd_capacity := capacity |}.

Definition q_rule_cap (cls : string) (capacity : N) : QueueConnectionRule :=
  {| qr_destination_class := cls; qr_descriptor := Some (q_desc_cap capacity) |}.

Definition dup_rules_app : ReadoutApplication unit :=
  {| UID := "ru-01";
     get_link_handler :=
       Some {| lh_config_object := mkRef "LinkHandlerConf" "fd-link-handler";
               lh_template_for := "FDDLH" |};
     get_queue_rules :=
       [q_rule_cap "DLH" 1; q_rule_cap "TPHandler" 2; q_rule_cap "FDDLH" 3;
        q_rule_cap "TPHandler" 4; q_rule_cap "Other" 5];
     get_network_rules := [n_rule "FDDLH" 1; n_rule "DLH" 2; n_rule "TPHandler" 3];
     get_tp_handler := None;
     get_tp_src_id := 0;
     get_data_reader := Some rdr_conf;
     get_contains := [] |}.

(** The one-group scenario told otherwise: other rules and descriptors
    around the same address template and base port, a disabled group in
    front, and the disabled stream first. *)
Definition one_group_variant_app : ReadoutApplication unit :=
  {| UID := "ru-01";
     get_link_handler :=
       Some {| lh_config_object := mkRef "LinkHandlerConf" "other-link-handler";
               lh_template_for := "DLH" |};
     get_queue_rules := [q_rule_cap "TPHandler" 2; q_rule_cap "DLH" 1000];
     get_network_rules := [n_rule "Other" 1; n_rule "DLH" 14000];
     get_tp_handler := None;
     get_tp_src_id := 99;
     get_data_reader :=
       Some {| dr_config_object := mkRef "DataReaderConf" "other-data-reader";
               dr_template_for := "DataReader" |};
     get_contains :=
       [group "G0" disabled [stream 5 enabled];
        group "G9" enabled [stream 2 disabled; stream 1 enabled]] |}.

(** The address template of the link handler is the prefix of the TP
    connection's unique id: the connection of stream [0x12345678] and the
    connection of the TP handler of source id 12345678 get one id. *)
Definition tp_collision_app : ReadoutApplication unit :=
  {| UID := "ru-01";
     get_link_handler := Some lh_conf;
     get_queue_rules := [q_rule "DLH"; q_rule "TPHandler"];
     get_network_rules :=
       [{| nr_endpoint_class := "DLH";
           nr_descriptor :=
             Some {| nd_uid_base := "ReqToTPH-"; nd_data_type := "DataRequest";
                     nd_connection_type := "kSendRecv"; nd_uri := "tcp://localhost";
                     nd_port := 14000 |} |};
        n_rule "TPHandler" 15000];
     get_tp_handler := Some tph_conf;
     get_tp_src_id := 12345678;
     get_data_reader := Some rdr_conf;
     get_contains := [group "G1" enabled [stream 305419896 enabled]] |}.

(** The address template of the link handler makes the connection of
    stream [0x82104640] carry the unique id of its queue,
    ["inputToDLH-2182104640"]. *)
Definition same_uid_app : ReadoutApplication unit :=
  {| UID := "ru-01";
     get_link_handler := Some lh_conf;
     get_queue_rules := [q_rule "DLH"];
     get_network_rules :=
       [{| nr_endpoint_class := "DLH";
           nr_descriptor :=
             Some {| nd_uid_base := "inputToDLH-21"; nd_data_type := "DataRequest";
                     nd_connection_type := "kSendRecv"; nd_uri := "tcp://localhost";
                     nd_port := 14000 |} |}];
     get_tp_handler := None;
     get_tp_src_id := 0;
     get_data_reader := Some rdr_conf;
     get_contains := [group "G1" enabled [stream 2182104640 enabled]] |}.

(** The one-group scenario with another address template in the network
    rule of the link handler; unique ids, groups and source ids are those
    of the one-group scenario. *)
Definition other_template_app : ReadoutApplication unit :=
  {| UID := "ru-01";
     get_link_handler := Some lh_conf;
     get_queue_rules := [q_rule "DLH"];
     get_network_rules :=
       [{| nr_endpoint_class := "DLH";
           nr_descriptor :=
             Some {| nd_uid_base := "req_conn_"; nd_data_type := "DataRequest";
                     nd_connection_type := "kSendRecv"; nd_uri := "tcp://localhost";
                     nd_port := 14000 |} |}];
     get_tp_handler := None;
     get_tp_src_id := 0;
     get_data_reader := Some rdr_conf;
     get_contains := [group "G1" enabled [stream 1 enabled; stream 2 disabled]] |}.

(** One group of [n] enabled streams with source ids [0 .. n-1], base
    port 14000. *)
Definition many_ids (n : nat) : list N := N.of_nat <$> seq 0 n.

Definition many_streams_app (n : nat) : ReadoutApplication unit :=
  {| UID := "ru-01";
     get_link_handler := Some lh_conf;
     get_queue_rules := [q_rule "DLH"];
     get_network_rules := [n_rule "DLH" 14000];
     get_tp_handler := None;
     get_tp_src_id := 0;
     get_data_reader := Some rdr_conf;
     get_contains := [group "G1" enabled ((λ id, stream id enabled) <$> many_ids n)] |}.

End Scenario.

(** * Verification *)

(** ** The monad *)

Lemma bind_Done {A B} (m : M A) (k : A → M B) st b st' :
  bind m k st = (Done b, st') →
  ∃ a st1, m st = (Done a, st1) ∧ k a st1 = (Done b, st').
Proof.
  unfold bind. destruct (m st) as [[a|e|] st1]; intros H; try discriminate.
  eauto.
Qed.

Lemma bind_step {A B} (m : M A) (k : A → M B) st a st1 :
  m st = (Done a, st1) → bind m k st = k a st1.
Proof. unfold bind. by intros ->. Qed.

Lemma ret_Done {A} (a b : A) st st' : ret a st = (Done b, st') → a = b ∧ st = st'.
Proof. unfold ret. by intros [= -> ->]. Qed.

Lemma deref_Done {A} (p : option A) a st st' :
  deref p st = (Done a, st') → p = Some a ∧ st = st'.
Proof. unfold deref. destruct p; by intros [= -> ->]. Qed.

(** ** The database *)

Lemma refs_app (st1 st2 : Store) : refs (st1 ++ st2) = refs st1 ++ refs st2.
Proof. unfold refs. apply fmap_app. Qed.

Lemma obj_ref_set_field name v o : obj_ref (set_field name v o) = obj_ref o.
Proof. done. Qed.

Lemma alter_obj_fresh r f (st : Store) : r ∉ refs st → alter_obj r f st = st.
Proof.
  unfold alter_obj, refs. induction st as [|o st IH]; [done|].
  rewrite fmap_cons, not_elem_of_cons. intros [Hne Hnin].
  rewrite fmap_cons, decide_False by done. f_equal. by apply IH.
Qed.

Lemma alter_obj_app r f (st1 st2 : Store) :
  alter_obj r f (st1 ++ st2) = alter_obj r f st1 ++ alter_obj r f st2.
Proof. unfold alter_obj. apply fmap_app. Qed.

(** Setting a field of the object created last. *)
Lemma alter_obj_last r f (st : Store) o :
  r ∉ refs st → obj_ref o = r → alter_obj r f (st ++ [o]) = st ++ [f o].
Proof.
  intros Hfresh Ho. rewrite alter_obj_app, alter_obj_fresh by done.
  unfold alter_obj. simpl. by rewrite decide_True.
Qed.

(** Setting a field of an object created earlier. *)
Lemma alter_obj_skip r f (st : Store) o :
  obj_ref o ≠ r → alter_obj r f (st ++ [o]) = alter_obj r f st ++ [o].
Proof.
  intros Ho. rewrite alter_obj_app. unfold alter_obj at 2. simpl.
  by rewrite decide_False.
Qed.

Lemma create_Done cls uid st r st' :
  create cls uid st = (Done r, st') →
  r = mkRef cls uid ∧ (r ∉ refs st) ∧ st' = st ++ [mkObj r ∅].
Proof.
  unfold create. case_bool_decide; [done|]. by intros [= <- <-].
Qed.

Lemma create_fresh cls uid st :
  mkRef cls uid ∉ refs st →
  create cls uid st = (Done (mkRef cls uid), st ++ [mkObj (mkRef cls uid) ∅]).
Proof. intros H. unfold create. by rewrite bool_decide_false. Qed.

Lemma set_by_val_Done obj name v st u st' :
  set_by_val obj name v st = (Done u, st') → st' = alter_obj obj (set_field name v) st.
Proof. unfold set_by_val. by intros [= <-]. Qed.

Lemma get_obj_app_fresh r (st1 st2 : Store) :
  r ∉ refs st1 → get_obj r (st1 ++ st2) = get_obj r st2.
Proof.
  unfold get_obj, refs. induction st1 as [|o st1 IH]; [done|].
  rewrite fmap_cons, not_elem_of_cons. intros [Hne Hnin]. simpl.
  rewrite bool_decide_false by done. auto.
Qed.

Lemma get_obj_cons_fresh r o (st : Store) :
  obj_ref o ≠ r → get_obj r (o :: st) = get_obj r st.
Proof. intros H. unfold get_obj. simpl. by rewrite bool_decide_false. Qed.

Lemma get_obj_here r o (st : Store) : obj_ref o = r → get_obj r (o :: st) = Some o.
Proof. intros H. unfold get_obj. simpl. by rewrite bool_decide_true. Qed.

(** In a database without duplicate references every stored object is the
    one its reference denotes. *)
Lemma get_obj_elem_of o (st : Store) :
  NoDup (refs st) → o ∈ st → get_obj (obj_ref o) st = Some o.
Proof.
  unfold refs. induction st as [|o' st IH]; intros Hnd Hin.
  - by apply elem_of_nil in Hin.
  - rewrite fmap_cons in Hnd. apply NoDup_cons in Hnd as [Hnin Hnd].
    apply elem_of_cons in Hin as [->|Hin].
    + by apply get_obj_here.
    + rewrite get_obj_cons_fresh; [by apply IH|].
      intros Heq. apply Hnin. rewrite Heq. by apply list_elem_of_fmap_2.
Qed.

(** ** Fresh references *)

Lemma Fresh_nil st : Fresh st [].
Proof. split; [constructor|]. intros r Hr. by apply elem_of_nil in Hr. Qed.

Lemma Fresh_snoc st objs o :
  Fresh st objs → obj_ref o ∉ refs (st ++ objs) → Fresh st (objs ++ [o]).
Proof.
  intros [Hnd Hdisj] Hnew. rewrite refs_app, not_elem_of_app in Hnew.
  destruct Hnew as [Hst Hobjs]. split.
  - rewrite refs_app. apply NoDup_app. split_and!; [done| |apply NoDup_singleton].
    intros r Hr Hr'. apply list_elem_of_singleton in Hr'. by subst.
  - intros r. rewrite refs_app, elem_of_app. intros [Hr|Hr]; [by apply Hdisj|].
    apply list_elem_of_singleton in Hr. by subst.
Qed.

Lemma Fresh_app st objs1 objs2 :
  Fresh st objs1 → Fresh (st ++ objs1) objs2 → Fresh st (objs1 ++ objs2).
Proof.
  intros [Hnd1 Hd1] [Hnd2 Hd2]. split.
  - rewrite refs_app. apply NoDup_app. split_and!; [done| |done].
    intros r Hr1 Hr2. apply (Hd2 r Hr2). rewrite refs_app, elem_of_app. by right.
  - intros r. rewrite refs_app, elem_of_app. intros [Hr|Hr]; [by apply Hd1|].
    specialize (Hd2 r Hr). rewrite refs_app, not_elem_of_app in Hd2. by destruct Hd2.
Qed.

Lemma Fresh_NoDup st objs : NoDup (refs st) → Fresh st objs → NoDup (refs (st ++ objs)).
Proof.
  intros Hst [Hnd Hd]. rewrite refs_app. apply NoDup_app. split_and!; [done| |done].
  intros r Hr1 Hr2. by apply (Hd r Hr2).
Qed.

(** A freshly created object is the one its reference denotes in the
    resulting database. *)
Lemma get_obj_Fresh st objs o :
  Fresh st objs → o ∈ objs → get_obj (obj_ref o) (st ++ objs) = Some o.
Proof.
  intros [Hnd Hd] Hin. rewrite get_obj_app_fresh.
  - by apply get_obj_elem_of.
  - apply Hd. by apply list_elem_of_fmap_2.
Qed.

Lemma not_elem_of_refs_snoc r (st : Store) o :
  r ∉ refs (st ++ [o]) ↔ (r ∉ refs st) ∧ r ≠ obj_ref o.
Proof.
  rewrite refs_app, not_elem_of_app. unfold refs at 2. simpl.
  by rewrite list_elem_of_singleton.
Qed.

(** ** Created objects *)

Lemma obj_ref_with_outputs tpq o : obj_ref (with_outputs tpq o) = obj_ref o.
Proof. by destruct tpq. Qed.

Lemma obj_ref_dlh_obj dlhConf tpq inputs id :
  obj_ref (dlh_obj dlhConf tpq inputs id) = dlh_ref (lh_template_for dlhConf) id.
Proof. unfold dlh_obj. by rewrite obj_ref_set_field, obj_ref_with_outputs. Qed.

Lemma refs_alter_obj_set r name v (st : Store) :
  refs (alter_obj r (set_field name v) st) = refs st.
Proof.
  unfold refs, alter_obj. rewrite <- list_fmap_compose. apply list_fmap_ext.
  intros i o _. simpl. by destruct (decide (obj_ref o = r)).
Qed.

Lemma refs_stream_objs {lookup : ConnectionLookup} rs dlhConf tpq qdesc ndesc off id :
  refs (stream_objs rs dlhConf tpq qdesc ndesc off id)
  = stream_refs (lh_template_for dlhConf) (nd_uid_base ndesc) id.
Proof. unfold stream_objs, refs. by rewrite !fmap_cons, obj_ref_dlh_obj. Qed.

(** ** The lookup of a connection *)

Lemma lookup_connection_Some {lookup : ConnectionLookup} uid rs r :
  lookup_connection uid rs = Some r →
  r ∈ rs ∧ is_connection (ref_class r) = true ∧ ref_uid r = uid.
Proof.
  unfold lookup_connection. intros H. apply choose_elem_of in H.
  by apply list_elem_of_filter in H as [[? ?] ?].
Qed.

Lemma lookup_connection_is_Some {lookup : ConnectionLookup} uid rs r :
  r ∈ rs → is_connection (ref_class r) = true → ref_uid r = uid →
  is_Some (lookup_connection uid rs).
Proof.
  intros Hin Hc Hu. apply choose_is_Some. intros Hnil.
  assert (r ∈ filter (λ r, is_connection (ref_class r) = true ∧ ref_uid r = uid) rs) as Hr.
  { by apply list_elem_of_filter. }
  rewrite Hnil in Hr. by apply elem_of_nil in Hr.
Qed.

Lemma lookup_connection_None {lookup : ConnectionLookup} uid rs :
  (∀ r, r ∈ rs → is_connection (ref_class r) = true → ref_uid r ≠ uid) →
  lookup_connection uid rs = None.
Proof.
  intros Hno. destruct (lookup_connection uid rs) as [r|] eqn:Hr; [|done].
  apply lookup_connection_Some in Hr as (Hin & Hc & Hu). by destruct (Hno r Hin Hc).
Qed.

Lemma get_connection_Done {lookup : ConnectionLookup} uid st c st' :
  get_connection uid st = (Done c, st') →
  c = lookup_connection uid (refs st) ∧ st' = st.
Proof. unfold get_connection. by intros [= <- <-]. Qed.

Lemma bind_get_connection {lookup : ConnectionLookup} {B} uid (k : option ObjRef → M B) st rs :
  refs st = rs →
  bind (get_connection uid) k st = k (lookup_connection uid rs) st.
Proof. by intros <-. Qed.

(** Lines 213-215: the configuration objects of the pointers collected. *)
Lemma collect_configs_Done (oq : list (option ObjRef)) acc st v st' :
  for_each (λ q qObjs, let* qCfg := deref q in ret (qObjs ++ [qCfg])) oq acc st
    = (Done v, st') →
  st' = st ∧ v = acc ++ omap id oq ∧ Forall is_Some oq.
Proof.
  revert acc. induction oq as [|q oq IH]; intros acc H.
  - apply ret_Done in H as [<- <-]. by rewrite app_nil_r.
  - simpl in H. apply bind_Done in H as (acc1 & st1 & Hq & H).
    apply bind_Done in Hq as (o & ? & Ho & Hq). apply deref_Done in Ho as [-> <-].
    apply ret_Done in Hq as [<- <-]. apply IH in H as (-> & -> & Hall).
    split_and!; [done|by rewrite <- app_assoc|]. constructor; [by eexists|done].
Qed.

Lemma collect_configs_Some (oq : list (option ObjRef)) acc st :
  Forall is_Some oq →
  for_each (λ q qObjs, let* qCfg := deref q in ret (qObjs ++ [qCfg])) oq acc st
  = (Done (acc ++ omap id oq), st).
Proof.
  intros Hall. revert acc. induction Hall as [|q oq [o ->] _ IH]; intros acc.
  - simpl. by rewrite app_nil_r.
  - simpl. unfold bind at 1 2. simpl. rewrite IH. by rewrite <- app_assoc.
Qed.

(** Inversion of one monadic step that returned. *)
Ltac inv_create H r Hf :=
  let Hm := fresh "Hm" in
  apply bind_Done in H as (r & ? & Hm & H);
  apply create_Done in Hm as (-> & Hf & ->).

Ltac inv_set H :=
  let Hm := fresh "Hm" in
  apply bind_Done in H as (? & ? & Hm & H);
  apply set_by_val_Done in Hm as ->.

Ltac inv_set_last H := inv_set H; rewrite alter_obj_last in H by done.

Ltac inv_deref H d :=
  let Hm := fresh "Hm" in
  apply bind_Done in H as (d & ? & Hm & H);
  apply deref_Done in Hm as [-> <-].

Lemma for_each_cons {A S} (body : A → S → M S) a l s :
  for_each body (a :: l) s = (let* s' := body a s in for_each body l s').
Proof. done. Qed.

(** ** Number formatting *)

Lemma hex_digit_value_hex_digit d : d < 16 → hex_digit_value (hex_digit d) = Some d.
Proof.
  intros Hd.
  assert (d ∈ [0; 1; 2; 3; 4; 5; 6; 7; 8; 9; 10; 11; 12; 13; 14; 15]) as Hin.
  { rewrite !elem_of_cons. lia. }
  repeat (apply elem_of_cons in Hin as [->|Hin]; [reflexivity|]).
  by apply elem_of_nil in Hin.
Qed.

Lemma of_hex_go_hex_go fuel n acc :
  n < 16 ^ N.of_nat (S fuel) →
  of_hex_go (hex_go fuel n acc) 0 = of_hex_go acc n.
Proof.
  revert n acc. induction fuel as [|fuel IH]; intros n acc Hn.
  - simpl. change (16 ^ N.of_nat 1) with 16 in Hn.
    rewrite N.mod_small by done. rewrite hex_digit_value_hex_digit by done.
    f_equal.
  - cbn [hex_go]. 
    assert (n = 16 * (n `div` 16) + n `mod` 16) as Hdm by (apply N.div_mod; lia).
    assert (n `mod` 16 < 16) as Hmod by (apply N.mod_lt; lia).
    destruct (n `div` 16 =? 0) eqn:Hz.
    + apply N.eqb_eq in Hz. cbn [of_hex_go].
      rewrite hex_digit_value_hex_digit by done. f_equal. lia.
    + rewrite IH.
      * cbn [of_hex_go]. rewrite hex_digit_value_hex_digit by done. f_equal. lia.
      * rewrite Nat2N.inj_succ, N.pow_succ_r' in Hn.
        apply N.Div0.div_lt_upper_bound. lia.
Qed.

Lemma of_hex_to_hex n : of_hex (to_hex n) = Some n.
Proof.
  unfold of_hex, to_hex. rewrite of_hex_go_hex_go; [done|].
  rewrite N2Nat.id || rewrite Nat2N.inj_succ, N2Nat.id.
  destruct (decide (n = 0)) as [->|Hn0]; [done|].
  pose proof (N.log2_spec n ltac:(lia)) as [_ Hlt].
  eapply N.lt_le_trans; [exact Hlt|].
  rewrite <- N.add_1_r.
  change 16 with (2 ^ 4). rewrite <- N.pow_mul_r.
  apply N.pow_le_mono_r; lia.
Qed.

Lemma length_hex_go fuel n acc k :
  (0 < k)%nat → n < 16 ^ N.of_nat k →
  (String.length (hex_go fuel n acc) ≤ k + String.length acc)%nat.
Proof.
  revert n acc k. induction fuel as [|fuel IH]; intros n acc k Hk Hn.
  - simpl. lia.
  - cbn [hex_go]. destruct (n `div` 16 =? 0) eqn:Hz; [simpl; lia|].
    apply N.eqb_neq in Hz.
    destruct k as [|[|k]]; [lia| |].
    + change (16 ^ N.of_nat 1) with 16 in Hn. rewrite N.div_small in Hz; done.
    + etrans; [apply (IH _ _ (S k)); [lia|]|simpl; lia].
      rewrite Nat2N.inj_succ, N.pow_succ_r' in Hn.
      apply N.Div0.div_lt_upper_bound. lia.
Qed.

Lemma length_to_hex n : n < UINT32_MOD → (String.length (to_hex n) ≤ 8)%nat.
Proof.
  intros Hn. unfold to_hex.
  etrans; [apply (length_hex_go _ _ _ 8); [lia|exact Hn]|]. simpl. lia.
Qed.

Lemma length_string_app (s1 s2 : string) :
  String.length (s1 +:+ s2) = (String.length s1 + String.length s2)%nat.
Proof. induction s1 as [|c s1 IH]; simpl; [done|]. by rewrite IH. Qed.

Lemma length_fill_string c k : String.length (fill_string c k) = k.
Proof. induction k as [|k IH]; simpl; [done|]. by rewrite IH. Qed.

Lemma of_hex_go_fill_zero k s : of_hex_go (fill_string "0" k +:+ s) 0 = of_hex_go s 0.
Proof. induction k as [|k IH]; simpl; [done|]. exact IH. Qed.

(** A [uint32_t] printed by [fill('0')], [std::hex], [std::setw(8)] is
    eight lowercase hexadecimal digits that read back as the number. *)
Lemma setw_hex_uint32 n :
  n < UINT32_MOD →
  String.length (setw_fill 8 "0" (to_hex n)) = 8%nat ∧
  of_hex (setw_fill 8 "0" (to_hex n)) = Some n.
Proof.
  intros Hn. pose proof (length_to_hex n Hn) as Hlen. unfold setw_fill. split.
  - rewrite length_string_app, length_fill_string. lia.
  - unfold of_hex. rewrite of_hex_go_fill_zero. apply of_hex_to_hex.
Qed.

(** ** Rule scan *)

Lemma last_matching_snoc {D} role (rules : list (string * option D)) cls desc :
  last_matching role (rules ++ [(cls, desc)]) =
  if role cls then desc else last_matching role rules.
Proof.
  unfold last_matching. rewrite filter_app.
  destruct (role cls) eqn:Hr.
  - rewrite filter_cons_True by done. rewrite filter_nil.
    by rewrite last_snoc.
  - rewrite filter_cons_False by (simpl; congruence).
    by rewrite filter_nil, app_nil_r.
Qed.

Lemma scan_rules_spec {D} dlhClass (rules : list (string * option D)) :
  scan_rules dlhClass rules =
  (last_matching (is_dlh_class dlhClass) rules, last_matching (tp_only dlhClass) rules).
Proof.
  unfold scan_rules. induction rules as [|[cls desc] rules IH] using rev_ind;
    [reflexivity|].
  rewrite fold_left_app, IH. simpl. rewrite !last_matching_snoc. unfold tp_only.
  destruct (is_dlh_class dlhClass cls); simpl; [done|].
  by destruct (is_tp_class cls).
Qed.

Lemma tp_only_is_tp_class dlhClass c :
  dlhClass ≠ "TPHandler"%string → tp_only dlhClass c = is_tp_class c.
Proof.
  intros Hne. unfold tp_only, is_dlh_class, is_tp_class.
  destruct (String.eqb c "TPHandler") eqn:Htp; [|by rewrite andb_false_r].
  apply String.eqb_eq in Htp as ->.
  destruct (String.eqb "TPHandler" dlhClass) eqn:He.
  - apply String.eqb_eq in He. congruence.
  - reflexivity.
Qed.

(** ** Uniqueness in the database *)

Lemma filter_ref_fresh r (st : Store) :
  r ∉ refs st → filter (λ o, obj_ref o = r) st = [].
Proof.
  unfold refs. induction st as [|o st IH]; [done|].
  rewrite fmap_cons, not_elem_of_cons. intros [Hne Hnin].
  rewrite filter_cons_False by congruence. by apply IH.
Qed.

Lemma filter_ref_NoDup o (st : Store) :
  NoDup (refs st) → o ∈ st → filter (λ x, obj_ref x = obj_ref o) st = [o].
Proof.
  unfold refs. induction st as [|o' st IH]; intros Hnd Hin.
  - by apply elem_of_nil in Hin.
  - rewrite fmap_cons in Hnd. apply NoDup_cons in Hnd as [Hnin Hnd].
    apply elem_of_cons in Hin as [->|Hin].
    + rewrite filter_cons_True by done. f_equal. by apply filter_ref_fresh.
    + rewrite filter_cons_False; [by apply IH|].
      intros Heq. apply Hnin. rewrite Heq. by apply list_elem_of_fmap_2.
Qed.

Lemma elem_of_concat_group {A} (groups : list (list A)) ids id :
  ids ∈ groups → id ∈ ids → id ∈ concat groups.
Proof.
  induction groups as [|g groups IH]; intros Hg Hid.
  - by apply elem_of_nil in Hg.
  - simpl. apply elem_of_app. apply elem_of_cons in Hg as [->|Hg]; [by left|].
    right. by apply IH.
Qed.

(** C5 (amended): each of the two rule loops leaves, as link-handler
    descriptor, the descriptor of the last rule in scan order whose class
    is ["DLH"] or the handler template's class, and as TP-handler
    descriptor the descriptor of the last rule whose class is
    ["TPHandler"] and is not a link-handler class (the last rule of class
    ["TPHandler"] unless the handler template's class is itself
    ["TPHandler"]); several matching rules are not an error. *)
Theorem rule_scan_last_match_wins {Session : Type} (dlhClass : string)
    (app : ReadoutApplication Session) :
  let qrules := queue_rule <$> get_queue_rules app in
  let nrules := network_rule <$> get_network_rules app in
  scan_queue_rules dlhClass app
    = (last_matching (is_dlh_class dlhClass) qrules,
       last_matching (tp_only dlhClass) qrules) ∧
  scan_network_rules dlhClass app
    = (last_matching (is_dlh_class dlhClass) nrules,
       last_matching (tp_only dlhClass) nrules) ∧
  (dlhClass ≠ "TPHandler"%string →
     (scan_queue_rules dlhClass app).2 = last_matching is_tp_class qrules ∧
     (scan_network_rules dlhClass app).2 = last_matching is_tp_class nrules) ∧
  (∀ c, is_dlh_class dlhClass c = true ↔ c = "DLH"%string ∨ c = dlhClass) ∧
  (∀ c, is_tp_class c = true ↔ c = "TPHandler"%string) ∧
  (∀ c, tp_only dlhClass c = true ↔
          c = "TPHandler"%string ∧ ¬ (c = "DLH"%string ∨ c = dlhClass)).
Proof.
  intros qrules nrules.
  assert (∀ c, is_dlh_class dlhClass c = true ↔ c = "DLH"%string ∨ c = dlhClass) as Hdlh.
  { intros c. unfold is_dlh_class. by rewrite orb_true_iff, !String.eqb_eq. }
  assert (∀ D (rules : list (string * option D)), dlhClass ≠ "TPHandler"%string →
            last_matching (tp_only dlhClass) rules = last_matching is_tp_class rules)
    as Htp.
  { intros D rules Hne. unfold last_matching. do 2 f_equal.
    apply list_filter_iff. intros [c d]. simpl. by rewrite tp_only_is_tp_class. }
  unfold scan_queue_rules, scan_network_rules. fold qrules nrules.
  rewrite !scan_rules_spec. split_and!; [done|done| |done| |].
  - intros Hne. simpl. by rewrite !Htp.
  - intros c. apply String.eqb_eq.
  - intros c. unfold tp_only, is_tp_class.
    rewrite andb_true_iff, negb_true_iff, String.eqb_eq, <- Hdlh.
    rewrite not_true_iff_false. tauto.
Qed.

(** ** Running the steps forward *)

Lemma Fresh_snoc_inv st objs o :
  Fresh st (objs ++ [o]) → Fresh st objs ∧ obj_ref o ∉ refs (st ++ objs).
Proof.
  intros [Hnd Hd]. rewrite refs_app in Hnd. apply NoDup_app in Hnd as (Hnd & Hdisj & _).
  split; [split; [done|]|].
  - intros r Hr. apply Hd. rewrite refs_app, elem_of_app. by left.
  - rewrite refs_app, not_elem_of_app. split.
    + apply Hd. rewrite refs_app, elem_of_app. right. by apply list_elem_of_singleton.
    + intros Hin. apply (Hdisj _ Hin). by apply list_elem_of_singleton.
Qed.

Lemma Fresh_app_inv st objs1 objs2 :
  Fresh st (objs1 ++ objs2) → Fresh st objs1 ∧ Fresh (st ++ objs1) objs2.
Proof.
  intros [Hnd Hd]. rewrite refs_app in Hnd. apply NoDup_app in Hnd as (Hnd1 & Hdisj & Hnd2).
  split; split; [done| |done|].
  - intros r Hr. apply Hd. rewrite refs_app, elem_of_app. by left.
  - intros r Hr. rewrite refs_app, not_elem_of_app. split.
    + apply Hd. rewrite refs_app, elem_of_app. by right.
    + intros Hin. by apply (Hdisj _ Hin).
Qed.

Lemma bind_create {B} cls uid (k : ObjRef → M B) st :
  mkRef cls uid ∉ refs st →
  bind (create cls uid) k st = k (mkRef cls uid) (st ++ [mkObj (mkRef cls uid) ∅]).
Proof. intros H. by rewrite (bind_step _ _ _ _ _ (create_fresh _ _ _ H)). Qed.

Lemma bind_set_last {B} r name v (k : unit → M B) st o :
  r ∉ refs st → obj_ref o = r →
  bind (set_by_val r name v) k (st ++ [o]) = k tt (st ++ [set_field name v o]).
Proof. intros Hr Ho. unfold bind, set_by_val. by rewrite alter_obj_last. Qed.

Lemma bind_deref_Some {A B} (a : A) (k : A → M B) st : bind (deref (Some a)) k st = k a st.
Proof. done. Qed.

Lemma bind_with_outputs {B} r tpq (k : unit → M B) st o :
  r ∉ refs st → obj_ref o = r →
  bind (match tpq with
        | Some q => set_objs r "outputs" [q]
        | None => ret tt
        end) k (st ++ [o])
  = k tt (st ++ [with_outputs tpq o]).
Proof. intros Hr Ho. destruct tpq; [by apply bind_set_last|done]. Qed.

Lemma refs_after_stream (st : Store) a b c :
  refs (((st ++ [a]) ++ [b]) ++ [c]) = refs st ++ [obj_ref a; obj_ref b; obj_ref c].
Proof. rewrite !refs_app. unfold refs. simpl. by rewrite <- !app_assoc. Qed.

Section Correctness.

Context {Session : Type} {lookup : ConnectionLookup}.
Implicit Types (session : Session) (app : ReadoutApplication Session).

(** ** One enabled stream *)

Lemma stream_body_Done session dlhConf dq dn tpq stream off oq mods st v st' :
  stream_body session dlhConf dq dn tpq (IsStream stream) (off, oq, mods) st
    = (Done v, st') →
  st_disabled stream session = false →
  ∃ qdesc ndesc,
    dq = Some qdesc ∧ dn = Some ndesc ∧
    st' = st ++ stream_objs (refs st) dlhConf tpq qdesc ndesc off (st_src_id stream) ∧
    v = ((off + 1)%Z,
         oq ++ [stream_output
                  (refs st ++ stream_refs (lh_template_for dlhConf) (nd_uid_base ndesc)
                                (st_src_id stream))
                  (st_src_id stream)],
         mods ++ [dlh_ref (lh_template_for dlhConf) (st_src_id stream)]) ∧
    Fresh st (stream_objs (refs st) dlhConf tpq qdesc ndesc off (st_src_id stream)).
Proof.
  intros H Hen. unfold stream_body in H. rewrite Hen in H.
  inv_create H dlhObj Hf1. inv_set_last H. inv_set_last H.
  apply bind_Done in H as (? & st2 & Hm & H).
  assert (st2 = st ++ [with_outputs tpq
    (set_field "handler_configuration" (VObj (lh_config_object dlhConf))
      (set_field "source_id" (VU32 (st_src_id stream))
        (mkObj (dlh_ref (lh_template_for dlhConf) (st_src_id stream)) ∅)))]) as ->.
  { destruct tpq as [q|]; simpl.
    - apply set_by_val_Done in Hm as ->. by rewrite alter_obj_last.
    - by apply ret_Done in Hm as [_ <-]. }
  clear Hm.
  inv_create H queueObj Hf2. inv_deref H qdesc.
  inv_set_last H. inv_set_last H. inv_set_last H.
  inv_deref H ndesc. inv_create H netObj Hf3.
  inv_set_last H. inv_set_last H. inv_set_last H. inv_set_last H.
  apply bind_Done in H as (c1 & ? & Hm & H). apply get_connection_Done in Hm as [-> ->].
  apply bind_Done in H as (o1 & ? & Hm & H). apply deref_Done in Hm as [Ho1 <-].
  apply bind_Done in H as (c2 & ? & Hm & H). apply get_connection_Done in Hm as [-> ->].
  apply bind_Done in H as (o2 & ? & Hm & H). apply deref_Done in Hm as [Ho2 <-].
  inv_set H.
  apply bind_Done in H as (c3 & ? & Hm & H). apply get_connection_Done in Hm as [-> ->].
  apply ret_Done in H as [<- <-].
  rewrite refs_alter_obj_set.
  rewrite refs_after_stream, obj_ref_with_outputs in Ho1, Ho2 |- *.
  change (lookup_connection (ref_uid (queue_ref (st_src_id stream)))
            (refs st ++ stream_refs (lh_template_for dlhConf) (nd_uid_base ndesc)
                          (st_src_id stream)) = Some o1) in Ho1.
  change (lookup_connection (ref_uid (net_ref (nd_uid_base ndesc) (st_src_id stream)))
            (refs st ++ stream_refs (lh_template_for dlhConf) (nd_uid_base ndesc)
                          (st_src_id stream)) = Some o2) in Ho2.
  apply not_elem_of_refs_snoc in Hf2 as Hf2'. destruct Hf2' as [Hq_st Hq_d].
  apply not_elem_of_refs_snoc in Hf3 as Hf3'. destruct Hf3' as [Hn_dq Hn_q].
  apply not_elem_of_refs_snoc in Hn_dq as [Hn_st Hn_d].
  rewrite obj_ref_with_outputs in Hq_d, Hn_d. simpl in Hq_d, Hn_d, Hn_q.
  exists qdesc, ndesc. split_and!; [done|done| |done|].
  - rewrite alter_obj_skip by exact Hn_d.
    rewrite alter_obj_skip by exact Hq_d.
    rewrite alter_obj_last; [|done|by rewrite obj_ref_with_outputs].
    rewrite <- !app_assoc. unfold stream_objs, dlh_obj, stream_inputs.
    cbn [omap list_omap]. by rewrite Ho1, Ho2.
  - apply (Fresh_snoc st [_; _]); [apply (Fresh_snoc st [_]);
      [apply (Fresh_snoc st []); [apply Fresh_nil|]|]|].
    + by rewrite app_nil_r, obj_ref_dlh_obj.
    + apply not_elem_of_refs_snoc. by rewrite obj_ref_dlh_obj.
    + rewrite refs_app, not_elem_of_app. split; [exact Hn_st|].
      unfold refs. rewrite !fmap_cons, fmap_nil, !not_elem_of_cons, obj_ref_dlh_obj.
      split_and!; [exact Hn_d|exact Hn_q|apply not_elem_of_nil].
Qed.

(** ** The streams of one group *)

Lemma group_stream_objs_nil rs dlhConf tpq dq dn off :
  group_stream_objs rs dlhConf tpq dq dn off [] = [].
Proof. by destruct dq, dn. Qed.

Lemma group_stream_objs_cons rs dlhConf tpq qdesc ndesc off id ids :
  group_stream_objs rs dlhConf tpq (Some qdesc) (Some ndesc) off (id :: ids) =
  stream_objs rs dlhConf tpq qdesc ndesc off id
    ++ group_stream_objs
         (rs ++ stream_refs (lh_template_for dlhConf) (nd_uid_base ndesc) id)
         dlhConf tpq (Some qdesc) (Some ndesc) (off + 1) ids.
Proof. done. Qed.

Lemma streams_outputs_cons rs dlhClass base id ids :
  streams_outputs rs dlhClass base (id :: ids) =
  stream_output (rs ++ stream_refs dlhClass base id) id
    :: streams_outputs (rs ++ stream_refs dlhClass base id) dlhClass base ids.
Proof. done. Qed.

Lemma enabled_ids_cons session res members :
  enabled_ids session (res :: members) =
  match stream_id session res with
  | Some id => id :: enabled_ids session members
  | None => enabled_ids session members
  end.
Proof. done. Qed.

Lemma stream_body_disabled session dlhConf dq dn tpq stream vars :
  st_disabled stream session = true →
  stream_body session dlhConf dq dn tpq (IsStream stream) vars = ret vars.
Proof. intros H. unfold stream_body. destruct vars as [[? ?] ?]. by rewrite H. Qed.

Lemma streams_loop_Done session dlhConf dq dn tpq members off oq mods st v st' :
  for_each (stream_body session dlhConf dq dn tpq) members (off, oq, mods) st
    = (Done v, st') →
  let ids := enabled_ids session members in
  st' = st ++ group_stream_objs (refs st) dlhConf tpq dq dn off ids ∧
  v = ((off + Z.of_nat (length ids))%Z,
       oq ++ streams_outputs (refs st) (lh_template_for dlhConf)
               (from_option nd_uid_base "" dn) ids,
       mods ++ (dlh_ref (lh_template_for dlhConf) <$> ids)) ∧
  Fresh st (group_stream_objs (refs st) dlhConf tpq dq dn off ids) ∧
  (ids ≠ [] → is_Some dq ∧ is_Some dn).
Proof.
  revert off oq mods st.
  induction members as [|res members IH]; intros off oq mods st H.
  - apply ret_Done in H as [<- <-]. simpl.
    rewrite group_stream_objs_nil, !app_nil_r, Z.add_0_r.
    split_and!; [done|done|apply Fresh_nil|done].
  - rewrite for_each_cons in H.
    apply bind_Done in H as ([[off1 oq1] mods1] & st1 & Hb & H).
    destruct res as [stream|uid d]; [|done].
    rewrite enabled_ids_cons. simpl. destruct (st_disabled stream session) eqn:Hdis.
    + rewrite stream_body_disabled in Hb by done.
      apply ret_Done in Hb as [[= <- <- <-] <-]. by apply IH.
    + apply stream_body_Done in Hb as (qdesc & ndesc & -> & -> & -> & [= -> -> ->] & Hfr);
        [|done].
      apply IH in H as (-> & -> & Hfr' & _).
      rewrite refs_app, refs_stream_objs in Hfr' |- *.
      rewrite group_stream_objs_cons, streams_outputs_cons, !fmap_cons, length_cons,
        <- !app_assoc.
      split_and!; [done| |by apply Fresh_app|by eauto].
      do 2 f_equal. lia.
Qed.

(** ** The resources of the application *)

Lemma group_body_Done app session dlhConf rdrConf dq dn tpq rset rnum off mods st v st' :
  group_body app session dlhConf rdrConf dq dn tpq (IsGroup rset) (rnum, off, mods) st
    = (Done v, st') →
  rg_disabled rset session = false →
  let ids := enabled_ids session (rg_contains rset) in
  let dlhClass := lh_template_for dlhConf in
  let uid_base := from_option nd_uid_base "" dn in
  let objs := group_stream_objs (refs st) dlhConf tpq dq dn off ids
                ++ [reader_obj rdrConf (UID app) rnum
                      (group_outputs (refs st) dlhClass uid_base ids)] in
  st' = st ++ objs ∧
  v = ((rnum + 1)%Z, (off + Z.of_nat (length ids))%Z,
       mods ++ (dlh_ref dlhClass <$> ids)
            ++ [reader_ref (dr_template_for rdrConf) (UID app) rnum]) ∧
  Fresh st objs ∧
  (ids ≠ [] → is_Some dq ∧ is_Some dn) ∧
  Forall is_Some (streams_outputs (refs st) dlhClass uid_base ids).
Proof.
  intros H Hen. unfold group_body in H. simpl in H. rewrite Hen in H.
  apply bind_Done in H as ([[off1 oq1] mods1] & st1 & Hl & H).
  apply streams_loop_Done in Hl as (-> & [= -> -> ->] & Hfr & Hdesc).
  inv_create H readerObj Hf.
  apply bind_Done in H as (qObjs & ? & Hc & H).
  apply collect_configs_Done in Hc as (-> & -> & Hall).
  inv_set_last H. inv_set_last H.
  apply ret_Done in H as [<- <-]. simpl.
  split_and!; [by rewrite <- app_assoc|by rewrite <- app_assoc| |done|done].
  by apply Fresh_snoc.
Qed.

Lemma refs_streams_objs rs dlhConf tpq qdesc ndesc off ids :
  refs (streams_objs rs dlhConf tpq qdesc ndesc off ids)
  = ids ≫= stream_refs (lh_template_for dlhConf) (nd_uid_base ndesc).
Proof.
  revert rs off. induction ids as [|id ids IH]; intros rs off; [done|].
  cbn [streams_objs]. by rewrite refs_app, IH, bind_cons, refs_stream_objs.
Qed.

Lemma refs_group_stream_objs rs dlhConf tpq dq dn off ids :
  (ids ≠ [] → is_Some dq ∧ is_Some dn) →
  refs (group_stream_objs rs dlhConf tpq dq dn off ids)
  = ids ≫= stream_refs (lh_template_for dlhConf) (from_option nd_uid_base "" dn).
Proof.
  intros Hdesc. destruct ids as [|id ids].
  - by rewrite group_stream_objs_nil.
  - destruct Hdesc as [[qdesc ->] [ndesc ->]]; [done|]. apply refs_streams_objs.
Qed.

(** The objects of one group carry the references [group_refs]. *)
Lemma refs_group_objs rs dlhConf rdrConf appUid tpq dq dn rnum off ids outputs :
  (ids ≠ [] → is_Some dq ∧ is_Some dn) →
  refs (group_stream_objs rs dlhConf tpq dq dn off ids
          ++ [reader_obj rdrConf appUid rnum outputs])
  = group_refs (lh_template_for dlhConf) (dr_template_for rdrConf) appUid
      (from_option nd_uid_base "" dn) rnum ids.
Proof. intros Hdesc. by rewrite refs_app, refs_group_stream_objs. Qed.

Lemma groups_loop_Done app session dlhConf rdrConf dq dn tpq resources rnum off mods st v st' :
  for_each (group_body app session dlhConf rdrConf dq dn tpq) resources
    (rnum, off, mods) st = (Done v, st') →
  let groups := processed_groups session resources in
  let objs := groups_objs (refs st) dlhConf rdrConf (UID app) tpq dq dn rnum off groups in
  st' = st ++ objs ∧
  v.2 = mods ++ groups_modules (lh_template_for dlhConf) (dr_template_for rdrConf)
                  (UID app) rnum groups ∧
  Fresh st objs ∧
  (concat groups ≠ [] → is_Some dq ∧ is_Some dn) ∧
  groups_found (refs st) (lh_template_for dlhConf) (dr_template_for rdrConf) (UID app)
    (from_option nd_uid_base "" dn) rnum groups.
Proof.
  revert rnum off mods st.
  induction resources as [|res resources IH]; intros rnum off mods st H; simpl in H.
  - apply ret_Done in H as [<- <-]. simpl. rewrite !app_nil_r.
    split_and!; [done|done|apply Fresh_nil|done|done].
  - apply bind_Done in H as ([[rnum1 off1] mods1] & st1 & Hb & H).
    unfold processed_groups. simpl.
    destruct res as [rset|uid d]; simpl.
    + destruct (rg_disabled rset session) eqn:Hdis.
      * unfold group_body in Hb. simpl in Hb. rewrite Hdis in Hb.
        apply ret_Done in Hb as [[= <- <- <-] <-]. by apply IH.
      * apply group_body_Done in Hb as (-> & [= -> -> ->] & Hfr & Hdesc & Hall); [|done].
        apply IH in H as (-> & -> & Hfr' & Hdesc' & Hfound).
        rewrite refs_app, refs_group_objs in Hfr', Hfound |- * by done.
        fold (processed_groups session resources). simpl.
        rewrite <- !app_assoc. simpl.
        split_and!; [done|done| | |done|done].
        -- apply (Fresh_app _ _ _ Hfr) in Hfr'. by rewrite <- app_assoc in Hfr'.
        -- intros Hne. destruct (enabled_ids session (rg_contains rset)) eqn:He.
           ++ by apply Hdesc'.
           ++ by apply Hdesc.
    + unfold group_body in Hb. simpl in Hb. destruct (d session); [|done].
      apply ret_Done in Hb as [[= <- <- <-] <-]. by apply IH.
Qed.

(** ** The TP handler *)

Lemma create_tp_handler_absent app tq tn mods :
  get_tp_handler app = None →
  create_tp_handler app tq tn mods = ret (None, mods).
Proof. intros H. unfold create_tp_handler. by rewrite H. Qed.

Lemma create_tp_handler_Done app tpHandlerConf tq tn mods st r st' :
  get_tp_handler app = Some tpHandlerConf →
  create_tp_handler app tq tn mods st = (Done r, st') →
  ∃ qdesc ndesc,
    tq = Some qdesc ∧ tn = Some ndesc ∧ get_tp_src_id app ≠ 0 ∧
    r = (Some (tp_queue_ref (get_tp_src_id app)), mods ++ [tp_ref (get_tp_src_id app)]) ∧
    st' = st ++ tp_objs tpHandlerConf qdesc ndesc (get_tp_src_id app) ∧
    Fresh st (tp_objs tpHandlerConf qdesc ndesc (get_tp_src_id app)).
Proof.
  intros Htp H. unfold create_tp_handler in H. rewrite Htp in H.
  destruct tn as [ndesc|]; [|done]. destruct tq as [qdesc|]; [|done].
  destruct (get_tp_src_id app =? 0) eqn:Hsrc; [done|].
  apply N.eqb_neq in Hsrc.
  inv_create H tpQueueObj Hf1. inv_set_last H. inv_set_last H. inv_set_last H.
  inv_create H tpNetObj Hf2. inv_set_last H. inv_set_last H. inv_set_last H.
  inv_set_last H.
  inv_create H tpObj Hf3. inv_set_last H. inv_set_last H. inv_set_last H.
  apply ret_Done in H as [<- <-].
  exists qdesc, ndesc. split_and!; [done|done|done|done|by rewrite <- !app_assoc|].
  apply (Fresh_snoc st [_; _]); [apply (Fresh_snoc st [_]);
    [apply (Fresh_snoc st []); [apply Fresh_nil|]|]|].
  - by rewrite app_nil_r.
  - exact Hf2.
  - rewrite <- app_assoc in Hf3. exact Hf3.
Qed.

Lemma create_tp_handler_creates app tpHandlerConf qdesc ndesc mods st :
  get_tp_handler app = Some tpHandlerConf →
  get_tp_src_id app ≠ 0 →
  tp_queue_ref (get_tp_src_id app) ∉ refs st →
  tp_net_ref (get_tp_src_id app) ∉ refs st →
  tp_ref (get_tp_src_id app) ∉ refs st →
  create_tp_handler app (Some qdesc) (Some ndesc) mods st =
  (Done (Some (tp_queue_ref (get_tp_src_id app)), mods ++ [tp_ref (get_tp_src_id app)]),
   st ++ tp_objs tpHandlerConf qdesc ndesc (get_tp_src_id app)).
Proof.
  intros Htp Hsrc Hq Hn Ht. unfold create_tp_handler. rewrite Htp.
  apply N.eqb_neq in Hsrc. rewrite Hsrc.
  rewrite (bind_step _ _ _ _ _ (create_fresh _ _ _ Hq)).
  unfold set_by_val, set_obj, set_objs, set_by_val, bind at 1 2 3.
  rewrite !alter_obj_last by done.
  assert (tp_net_ref (get_tp_src_id app)
            ∉ refs (st ++ [tp_queue_obj qdesc (get_tp_src_id app)])) as Hn'.
  { by apply not_elem_of_refs_snoc. }
  rewrite (bind_step _ _ _ _ _ (create_fresh _ _ _ Hn')).
  unfold bind at 1 2 3 4. rewrite !alter_obj_last by done.
  assert (tp_ref (get_tp_src_id app)
            ∉ refs ((st ++ [tp_queue_obj qdesc (get_tp_src_id app)])
                      ++ [tp_net_obj ndesc (get_tp_src_id app)])) as Ht'.
  { apply not_elem_of_refs_snoc. split; [|done]. by apply not_elem_of_refs_snoc. }
  rewrite (bind_step _ _ _ _ _ (create_fresh _ _ _ Ht')).
  unfold bind, ret. rewrite !alter_obj_last by done.
  by rewrite <- !app_assoc.
Qed.

(** ** The whole call *)

Lemma refs_tp_objs tpHandlerConf qdesc ndesc tpsrc :
  refs (tp_objs tpHandlerConf qdesc ndesc tpsrc)
  = [tp_queue_ref tpsrc; tp_net_ref tpsrc; tp_ref tpsrc].
Proof. done. Qed.

Lemma generate_modules_Done_found app session st0 mods st1 :
  generate_modules app session st0 = (Done mods, st1) →
  st1 = st0 ++ created_objs (refs st0) app session ∧
  mods = returned_modules app session ∧
  Fresh st0 (created_objs (refs st0) app session) ∧
  Configured app session ∧
  ∀ dlhConf rdrConf,
    get_link_handler app = Some dlhConf → get_data_reader app = Some rdrConf →
    groups_found (refs st0 ++ tp_refs app) (lh_template_for dlhConf)
      (dr_template_for rdrConf) (UID app)
      (from_option nd_uid_base "" (scan_network_rules (lh_template_for dlhConf) app).1)
      0 (processed_groups session (get_contains app)).
Proof.
  intros H. unfold generate_modules in H.
  apply bind_Done in H as (dlhConf & ? & Hlh & H). apply deref_Done in Hlh as [Hlh <-].
  unfold created_objs, returned_modules. rewrite Hlh.
  destruct (scan_queue_rules (lh_template_for dlhConf) app) as [dq tq] eqn:Hq.
  destruct (scan_network_rules (lh_template_for dlhConf) app) as [dn tn] eqn:Hn.
  apply bind_Done in H as ([tpq mods1] & st' & Htp & H).
  destruct (get_data_reader app) as [rdrConf|] eqn:Hrd; [|done].
  apply bind_Done in H as ([[rnum off] mods2] & st2 & Hl & H).
  apply ret_Done in H as [<- <-].
  apply groups_loop_Done in Hl as (-> & Hmods & Hfr & Hdesc & Hfound).
  simpl in Hmods, Hdesc |- *.
  unfold created_tp_objs, tp_queue_of, tp_modules, tp_refs.
  destruct (get_tp_handler app) as [tpHandlerConf|] eqn:Htph.
  - apply (create_tp_handler_Done _ _ _ _ _ _ _ _ Htph) in Htp
      as (qdesc & ndesc & -> & -> & Hsrc & [= -> ->] & -> & Hfr').
    rewrite refs_app, refs_tp_objs in Hfr, Hfound |- *.
    split_and!; [by rewrite <- app_assoc|done|by apply Fresh_app| |].
    + split; [done|done| |].
      * intros d Hd _. rewrite Hlh in Hd. injection Hd as <-. rewrite Hq, Hn. by eauto.
      * intros d Hd. rewrite Hlh in Hd. injection Hd as <-. by rewrite Hq, Hn.
    + intros d r [= <-] [= <-]. by rewrite Hn.
  - rewrite create_tp_handler_absent in Htp by done.
    apply ret_Done in Htp as [[= <- <-] <-]. rewrite app_nil_r.
    split_and!; [done|done|done| |].
    + split; [done|done| |].
      * intros d _ [c Hc]. by rewrite Htph in Hc.
      * intros d Hd. rewrite Hlh in Hd. injection Hd as <-. by rewrite Hq, Hn.
    + intros d r [= <-] [= <-]. by rewrite Hn.
Qed.

Lemma generate_modules_Done app session st0 mods st1 :
  generate_modules app session st0 = (Done mods, st1) →
  st1 = st0 ++ created_objs (refs st0) app session ∧
  mods = returned_modules app session ∧
  Fresh st0 (created_objs (refs st0) app session) ∧
  Configured app session.
Proof.
  intros H. by apply generate_modules_Done_found in H as (? & ? & ? & ? & _).
Qed.

Lemma refs_groups_objs rs dlhConf rdrConf appUid tpq dq dn rnum off groups :
  (concat groups ≠ [] → is_Some dq ∧ is_Some dn) →
  refs (groups_objs rs dlhConf rdrConf appUid tpq dq dn rnum off groups)
  = groups_refs (lh_template_for dlhConf) (dr_template_for rdrConf) appUid
      (from_option nd_uid_base "" dn) rnum groups.
Proof.
  revert rs rnum off.
  induction groups as [|ids groups IH]; intros rs rnum off Hdesc; [done|].
  cbn [groups_objs groups_refs]. rewrite refs_app. f_equal.
  - apply refs_group_stream_objs. intros Hne. apply Hdesc. simpl.
    destruct ids; [done|]. done.
  - unfold refs. rewrite fmap_cons. f_equal. apply IH.
    intros Hne. apply Hdesc. simpl. intros Heq. apply app_eq_nil in Heq as [_ Heq]. done.
Qed.

Lemma refs_created_objs rs app session :
  Configured app session → refs (created_objs rs app session) = created_refs app session.
Proof.
  intros [[dlhConf Hlh] [rdrConf Hrd] Htp Hdlh].
  unfold created_objs, created_refs. rewrite Hlh, Hrd, refs_app. f_equal.
  - unfold created_tp_objs, tp_refs.
    destruct (get_tp_handler app) as [c|] eqn:Hc; [|done].
    destruct (Htp dlhConf Hlh) as ([qdesc ->] & [ndesc ->] & _); [by eauto|]. done.
  - apply refs_groups_objs. by apply Hdlh.
Qed.

(** The references in the database after a call that returns. *)
Lemma refs_generated app session st0 mods st1 :
  generate_modules app session st0 = (Done mods, st1) →
  refs st1 = refs st0 ++ created_refs app session.
Proof.
  intros H. apply generate_modules_Done in H as (-> & _ & _ & Hcfg).
  by rewrite refs_app, refs_created_objs.
Qed.

(** ** Where each object sits among the created ones *)

Lemma stream_objs_in_streams_objs rs dlhConf tpq qdesc ndesc off ids k id :
  ids !! k = Some id →
  ∃ rs', ∀ o,
    o ∈ stream_objs rs' dlhConf tpq qdesc ndesc (off + Z.of_nat k) id →
    o ∈ streams_objs rs dlhConf tpq qdesc ndesc off ids.
Proof.
  revert rs off k. induction ids as [|id' ids IH]; intros rs off k Hk; [done|].
  cbn [streams_objs]. destruct k as [|k].
  - injection Hk as ->. exists rs. intros o Ho. apply elem_of_app. left.
    by rewrite Z.add_0_r in Ho.
  - destruct (IH (rs ++ stream_refs (lh_template_for dlhConf) (nd_uid_base ndesc) id')
                 (off + 1)%Z k Hk) as [rs' Hin].
    exists rs'. intros o Ho. apply elem_of_app. right. apply Hin.
    by replace (off + 1 + Z.of_nat k)%Z with (off + Z.of_nat (S k))%Z by lia.
Qed.

Lemma stream_objs_in_groups_objs rs dlhConf rdrConf appUid tpq qdesc ndesc rnum off groups
    k id :
  concat groups !! k = Some id →
  ∃ rs', ∀ o,
    o ∈ stream_objs rs' dlhConf tpq qdesc ndesc (off + Z.of_nat k) id →
    o ∈ groups_objs rs dlhConf rdrConf appUid tpq (Some qdesc) (Some ndesc) rnum off groups.
Proof.
  revert rs rnum off k.
  induction groups as [|ids groups IH]; intros rs rnum off k Hk; [done|].
  cbn [groups_objs]. simpl in Hk.
  apply lookup_app_Some in Hk as [Hk|[Hle Hk]].
  - destruct (stream_objs_in_streams_objs rs dlhConf tpq qdesc ndesc off _ _ _ Hk)
      as [rs' Hin].
    exists rs'. intros o Ho. apply elem_of_app. left. by apply Hin.
  - destruct (IH (rs ++ group_refs (lh_template_for dlhConf) (dr_template_for rdrConf)
                         appUid (nd_uid_base ndesc) rnum ids)
                 (rnum + 1)%Z (off + Z.of_nat (length ids))%Z _ Hk) as [rs' Hin].
    exists rs'. intros o Ho. apply elem_of_app. right. apply elem_of_cons. right.
    apply Hin.
    by replace (off + Z.of_nat (length ids) + Z.of_nat (k - length ids))%Z
      with (off + Z.of_nat k)%Z by lia.
Qed.

(** What the lookups of line 201 have found for the streams of one group:
    for each stream an object that was in the database by then, under the
    unique id of the stream's queue. *)
Lemma streams_outputs_found rs dlhClass base ids :
  Forall is_Some (streams_outputs rs dlhClass base ids) →
  Forall2 (λ id o, ∃ rs',
             (∀ r, r ∈ rs' → r ∈ rs ++ (ids ≫= stream_refs dlhClass base)) ∧
             lookup_connection (ref_uid (queue_ref id)) rs' = Some o)
          ids (group_outputs rs dlhClass base ids).
Proof.
  unfold group_outputs. revert rs.
  induction ids as [|id ids IH]; intros rs Hall; [constructor|].
  rewrite streams_outputs_cons in Hall |- *. apply Forall_cons in Hall as [[o Ho] Hall].
  rewrite bind_cons, Ho. cbn [omap list_omap Datatypes.id]. constructor.
  - exists (rs ++ stream_refs dlhClass base id). split; [|exact Ho].
    intros r Hr. rewrite app_assoc. apply elem_of_app. by left.
  - eapply Forall2_impl; [by apply IH|]. intros id' o' (rs' & Hsub & Hlook).
    exists rs'. split; [|done]. intros r Hr. rewrite app_assoc. by apply Hsub.
Qed.

Lemma reader_obj_in_groups_objs rs dlhConf rdrConf appUid tpq dq dn rnum off groups k ids :
  let dlhClass := lh_template_for dlhConf in
  let readerClass := dr_template_for rdrConf in
  let base := from_option nd_uid_base "" dn in
  groups !! k = Some ids →
  groups_found rs dlhClass readerClass appUid base rnum groups →
  ∃ outputs,
    reader_obj rdrConf appUid (rnum + Z.of_nat k) outputs
      ∈ groups_objs rs dlhConf rdrConf appUid tpq dq dn rnum off groups ∧
    Forall2 (λ id o, ∃ rs',
               (∀ r, r ∈ rs' →
                     r ∈ rs ++ groups_refs dlhClass readerClass appUid base rnum groups) ∧
               lookup_connection (ref_uid (queue_ref id)) rs' = Some o)
            ids outputs.
Proof.
  intros dlhClass readerClass base. revert rs rnum off k.
  induction groups as [|ids' groups IH]; intros rs rnum off k Hk Hfound; [done|].
  cbn [groups_objs groups_refs groups_found] in *. destruct Hfound as [Hall Hfound].
  destruct k as [|k].
  - injection Hk as ->. exists (group_outputs rs dlhClass base ids). split.
    + apply elem_of_app. right. apply elem_of_cons. left. by rewrite Z.add_0_r.
    + eapply Forall2_impl; [by apply streams_outputs_found|].
      intros id o (rs' & Hsub & Hlook). exists rs'. split; [|done].
      intros r Hr. apply Hsub in Hr. rewrite app_assoc. apply elem_of_app. by left.
  - destruct (IH _ (rnum + 1)%Z (off + Z.of_nat (length ids'))%Z k Hk Hfound)
      as (outputs & Hin & Hout).
    exists outputs. split.
    + apply elem_of_app. right. apply elem_of_cons. right.
      by replace (rnum + Z.of_nat (S k))%Z with (rnum + 1 + Z.of_nat k)%Z by lia.
    + eapply Forall2_impl; [exact Hout|].
      intros id o (rs' & Hsub & Hlook). exists rs'. split; [|done].
      intros r Hr. apply Hsub in Hr. unfold group_refs in Hr.
      by rewrite <- !app_assoc in Hr.
Qed.

(** Every object a returning call has created is the one its reference
    denotes afterwards, and did not exist before. *)
Lemma created_get_obj app session st0 mods st1 o :
  generate_modules app session st0 = (Done mods, st1) →
  o ∈ created_objs (refs st0) app session →
  get_obj (obj_ref o) st1 = Some o ∧ obj_ref o ∉ refs st0.
Proof.
  intros H Ho. apply generate_modules_Done in H as (-> & _ & Hfr & _). split.
  - by apply get_obj_Fresh.
  - apply Hfr. by apply list_elem_of_fmap_2.
Qed.

Lemma created_get_field app session st0 mods st1 o name :
  generate_modules app session st0 = (Done mods, st1) →
  o ∈ created_objs (refs st0) app session →
  get_field (obj_ref o) name st1 = obj_fields o !! name.
Proof.
  intros H Ho. unfold get_field.
  by rewrite (proj1 (created_get_obj _ _ _ _ _ _ H Ho)).
Qed.

(** The stream objects of a returning call, by the position of the stream
    among the enabled streams of the processed groups. *)
Lemma created_stream_objs app session st0 mods st1 k id :
  generate_modules app session st0 = (Done mods, st1) →
  concat (processed_groups session (get_contains app)) !! k = Some id →
  ∃ dlhConf qdesc ndesc rs,
    get_link_handler app = Some dlhConf ∧
    (scan_queue_rules (lh_template_for dlhConf) app).1 = Some qdesc ∧
    (scan_network_rules (lh_template_for dlhConf) app).1 = Some ndesc ∧
    ∀ o, o ∈ stream_objs rs dlhConf (tp_queue_of app) qdesc ndesc (Z.of_nat k) id →
         o ∈ created_objs (refs st0) app session.
Proof.
  intros H Hk. apply generate_modules_Done in H as (_ & _ & _ & [Hlh Hrd _ Hdlh]).
  destruct Hlh as [dlhConf Hlh]. destruct Hrd as [rdrConf Hrd].
  destruct (Hdlh dlhConf Hlh) as [[qdesc Hq] [ndesc Hn]].
  { intros Hnil. by rewrite Hnil in Hk. }
  destruct (stream_objs_in_groups_objs (refs st0 ++ tp_refs app) dlhConf rdrConf (UID app)
              (tp_queue_of app) qdesc ndesc 0 0 _ _ _ Hk) as [rs Hin].
  exists dlhConf, qdesc, ndesc, rs. split_and!; [done..|].
  intros o Ho. unfold created_objs. rewrite Hlh, Hrd, Hq, Hn.
  apply elem_of_app. right. by apply Hin.
Qed.

(** The reader of the [k]-th processed group of a returning call, and
    what the lookups of line 201 found for it. *)
Lemma created_reader_obj app session st0 mods st1 k ids :
  generate_modules app session st0 = (Done mods, st1) →
  processed_groups session (get_contains app) !! k = Some ids →
  ∃ rdrConf outputs,
    get_data_reader app = Some rdrConf ∧
    reader_obj rdrConf (UID app) (Z.of_nat k) outputs
      ∈ created_objs (refs st0) app session ∧
    Forall2 (λ id o, ∃ rs',
               (∀ r, r ∈ rs' → r ∈ refs st1) ∧
               lookup_connection (ref_uid (queue_ref id)) rs' = Some o)
            ids outputs.
Proof.
  intros H Hk.
  apply generate_modules_Done_found in H as (-> & _ & _ & Hcfg & Hfound).
  pose proof Hcfg as [[dlhConf Hlh] [rdrConf Hrd] _ Hdlh].
  specialize (Hfound dlhConf rdrConf Hlh Hrd).
  destruct (reader_obj_in_groups_objs (refs st0 ++ tp_refs app) dlhConf rdrConf (UID app)
              (tp_queue_of app) (scan_queue_rules (lh_template_for dlhConf) app).1
              (scan_network_rules (lh_template_for dlhConf) app).1 0 0 _ _ _ Hk Hfound)
    as (outputs & Hin & Hout).
  exists rdrConf, outputs. split_and!; [done| |].
  - unfold created_objs. rewrite Hlh, Hrd. apply elem_of_app. by right.
  - eapply Forall2_impl; [exact Hout|].
    intros id o (rs' & Hsub & Hlook). exists rs'. split; [|done].
    intros r Hr. apply Hsub in Hr.
    rewrite refs_app, refs_created_objs by done. unfold created_refs.
    by rewrite Hlh, Hrd, app_assoc.
Qed.

(** Exactly one object carries the reference of a created object, and the
    call created it. *)
Lemma created_unique app session st0 mods st1 o :
  generate_modules app session st0 = (Done mods, st1) →
  o ∈ created_objs (refs st0) app session →
  (obj_ref o ∉ refs st0) ∧ filter (λ x, obj_ref x = obj_ref o) st1 = [o].
Proof.
  intros H Ho. apply generate_modules_Done in H as (-> & _ & [Hnd Hfr] & _).
  assert (obj_ref o ∉ refs st0) as Hnew by (by apply Hfr, list_elem_of_fmap_2).
  split; [done|].
  by rewrite filter_app, filter_ref_fresh, filter_ref_NoDup.
Qed.

(** ** Ports *)

Lemma stream_port_zero off : stream_port 0 off = 0.
Proof. done. Qed.

Lemma stream_port_mod base k :
  base ≠ 0 → stream_port base (Z.of_nat k) = (base + N.of_nat k) `mod` 2 ^ 16.
Proof.
  intros Hb. unfold stream_port, to_uint16, UINT16_MOD.
  apply N.eqb_neq in Hb. rewrite Hb.
  replace (Z.of_N base + Z.of_nat k)%Z with (Z.of_N (base + N.of_nat k)) by lia.
  change (2 ^ 16)%Z with (Z.of_N (2 ^ 16)).
  by rewrite <- N2Z.inj_mod, N2Z.id.
Qed.

Lemma created_stream_port app session st0 mods st1 k id :
  generate_modules app session st0 = (Done mods, st1) →
  concat (processed_groups session (get_contains app)) !! k = Some id →
  ∃ dlhConf ndesc,
    get_link_handler app = Some dlhConf ∧
    (scan_network_rules (lh_template_for dlhConf) app).1 = Some ndesc ∧
    get_field (net_ref (nd_uid_base ndesc) id) "port" st1
      = Some (VU16 (stream_port (nd_port ndesc) (Z.of_nat k))).
Proof.
  intros H Hk.
  destruct (created_stream_objs _ _ _ _ _ _ _ H Hk)
    as (dlhConf & qdesc & ndesc & rs & Hlh & Hq & Hn & Hin).
  exists dlhConf, ndesc. split_and!; [done..|].
  change (net_ref (nd_uid_base ndesc) id) with (obj_ref (net_obj ndesc (Z.of_nat k) id)).
  rewrite (created_get_field _ _ _ _ _ _ _ H); [done|].
  apply Hin. unfold stream_objs. set_solver.
Qed.

(** C6 (amended): in a call that returns, the stream connection created
    for the [k]-th enabled stream, counted across the processed groups in
    declaration order (disabled streams and disabled groups are not
    counted), has port 0 when the descriptor's base port is 0 and
    [(base_port + k) mod 2^16] otherwise; this is [base_port + k], one more
    than the port before it, as long as [base_port + k < 2^16]. *)
Theorem stream_ports_offset_mod_uint16 app session st0 mods st1 k id :
  generate_modules app session st0 = (Done mods, st1) →
  concat (processed_groups session (get_contains app)) !! k = Some id →
  ∃ dlhConf ndesc port,
    get_link_handler app = Some dlhConf ∧
    (scan_network_rules (lh_template_for dlhConf) app).1 = Some ndesc ∧
    get_field (net_ref (nd_uid_base ndesc) id) "port" st1 = Some (VU16 port) ∧
    (nd_port ndesc = 0 → port = 0) ∧
    (nd_port ndesc ≠ 0 → port = (nd_port ndesc + N.of_nat k) `mod` 2 ^ 16) ∧
    (nd_port ndesc ≠ 0 → nd_port ndesc + N.of_nat k < 2 ^ 16 →
     port = nd_port ndesc + N.of_nat k).
Proof.
  intros H Hk.
  destruct (created_stream_port _ _ _ _ _ _ _ H Hk) as (dlhConf & ndesc & Hlh & Hn & Hp).
  exists dlhConf, ndesc, (stream_port (nd_port ndesc) (Z.of_nat k)).
  split_and!; [done..| | |].
  - by intros ->.
  - apply stream_port_mod.
  - intros Hb Hlt. rewrite stream_port_mod by done. by apply N.mod_small.
Qed.

(** C10: the port of a stream connection is a [uint16_t]: for a non-zero
    base port it is [(base_port + k) mod 2^16], [k] being the number of
    stream connections created before; it is below [2^16], differs from
    [base_port + k] once that reaches [2^16], equals the port assigned
    [2^16] connections earlier, and is 0 whenever [base_port + k] is a
    multiple of [2^16]. *)
Theorem stream_port_wraps_uint16 app session st0 mods st1 k id :
  generate_modules app session st0 = (Done mods, st1) →
  concat (processed_groups session (get_contains app)) !! k = Some id →
  ∃ dlhConf ndesc port,
    get_link_handler app = Some dlhConf ∧
    (scan_network_rules (lh_template_for dlhConf) app).1 = Some ndesc ∧
    get_field (net_ref (nd_uid_base ndesc) id) "port" st1 = Some (VU16 port) ∧
    (nd_port ndesc ≠ 0 →
       port = (nd_port ndesc + N.of_nat k) `mod` 2 ^ 16 ∧
       port < 2 ^ 16 ∧
       (2 ^ 16 ≤ nd_port ndesc + N.of_nat k → port ≠ nd_port ndesc + N.of_nat k) ∧
       ((nd_port ndesc + N.of_nat k) `mod` 2 ^ 16 = 0 → port = 0) ∧
       ∀ k0 id0,
         concat (processed_groups session (get_contains app)) !! k0 = Some id0 →
         N.of_nat k = N.of_nat k0 + 2 ^ 16 →
         get_field (net_ref (nd_uid_base ndesc) id0) "port" st1 = Some (VU16 port)).
Proof.
  intros H Hk.
  destruct (created_stream_port _ _ _ _ _ _ _ H Hk) as (dlhConf & ndesc & Hlh & Hn & Hp).
  exists dlhConf, ndesc, (stream_port (nd_port ndesc) (Z.of_nat k)).
  split_and!; [done..|]. intros Hb. rewrite stream_port_mod by done.
  assert ((nd_port ndesc + N.of_nat k) `mod` 2 ^ 16 < 2 ^ 16) as Hlt
    by (apply N.mod_lt; lia).
  split_and!; [done|done|lia|done|].
  intros k0 id0 Hk0 Hwrap.
  destruct (created_stream_port _ _ _ _ _ _ _ H Hk0) as (dlhConf' & ndesc' & Hlh' & Hn' & Hp').
  rewrite Hlh in Hlh'. injection Hlh' as <-. rewrite Hn in Hn'. injection Hn' as <-.
  rewrite Hp', stream_port_mod by done. do 2 f_equal.
  rewrite Hwrap.
  replace (nd_port ndesc + (N.of_nat k0 + 2 ^ 16))
    with (nd_port ndesc + N.of_nat k0 + 1 * 2 ^ 16) by lia.
  by rewrite N.Div0.mod_add.
Qed.

(** ** Identifiers *)

Lemma length_groups_modules dlhClass readerClass appUid rnum (groups : list (list N)) :
  length (groups_modules dlhClass readerClass appUid rnum groups)
  = (length (concat groups) + length groups)%nat.
Proof.
  revert rnum. induction groups as [|ids groups IH]; intros rnum; [done|].
  cbn [groups_modules]. simpl. rewrite !length_app, length_fmap. simpl.
  rewrite IH. lia.
Qed.



Lemma groups_refs_app dlhClass readerClass appUid base rnum (groups1 groups2 : list (list N)) :
  groups_refs dlhClass readerClass appUid base rnum (groups1 ++ groups2)
  = groups_refs dlhClass readerClass appUid base rnum groups1
    ++ groups_refs dlhClass readerClass appUid base
         (rnum + Z.of_nat (length groups1)) groups2.
Proof.
  revert rnum. induction groups1 as [|ids groups1 IH]; intros rnum.
  - simpl. by rewrite Z.add_0_r.
  - cbn [groups_refs app]. rewrite IH, <- !app_assoc, length_cons.
    by replace (rnum + Z.of_nat (S (length groups1)))%Z
      with (rnum + 1 + Z.of_nat (length groups1))%Z by lia.
Qed.

(** The references of the objects created for the [k]-th processed group:
    those of its streams, then that of its reader. *)
Lemma groups_refs_lookup dlhClass readerClass appUid base (groups : list (list N)) k ids :
  groups !! k = Some ids →
  groups_refs dlhClass readerClass appUid base 0 groups
  = groups_refs dlhClass readerClass appUid base 0 (take k groups)
    ++ group_refs dlhClass readerClass appUid base (Z.of_nat k) ids
    ++ groups_refs dlhClass readerClass appUid base (Z.of_nat k + 1) (drop (S k) groups).
Proof.
  intros Hk. rewrite <- (take_drop_middle _ _ _ Hk) at 1.
  rewrite groups_refs_app. cbn [groups_refs]. unfold group_refs.
  rewrite length_take_le by (apply lookup_lt_Some in Hk; lia).
  by rewrite Z.add_0_l, <- !app_assoc.
Qed.

Lemma Forall2_eq_fmap {A B} (P : A → Prop) (f : A → B) l k :
  Forall2 (λ x y, P x → y = f x) l k → Forall P l → k = f <$> l.
Proof.
  induction 1 as [|x y l k Hxy _ IH]; intros Hall; [done|].
  apply Forall_cons in Hall as [Hx Hall]. rewrite fmap_cons, (Hxy Hx). f_equal. by apply IH.
Qed.

(** C1 (amended): in a call that returns, the objects created for the
    [k]-th processed group are those of its enabled streams followed by
    exactly one reader.  The reader's [outputs] relationship (not its
    [inputs], which is never set) holds, for each enabled stream of the
    group in order, the object the database hands back when asked for the
    connection that carries the unique id of the stream's queue: an object
    of that unique id and of a class derived from [Connection], which is
    the Queue object created for the stream whenever no other connection
    in the database carries that unique id.  The list is empty when no
    stream of the group is enabled.  The reader's [configuration] is the
    reader template's object. *)
Theorem reader_outputs_are_group_queues app session st0 mods st1 k ids :
  generate_modules app session st0 = (Done mods, st1) →
  processed_groups session (get_contains app) !! k = Some ids →
  ∃ dlhConf rdrConf reader outputs,
    get_link_handler app = Some dlhConf ∧
    get_data_reader app = Some rdrConf ∧
    let groups := processed_groups session (get_contains app) in
    let dlhClass := lh_template_for dlhConf in
    let readerClass := dr_template_for rdrConf in
    let uid_base :=
      from_option nd_uid_base "" (scan_network_rules dlhClass app).1 in
    let r := reader_ref readerClass (UID app) (Z.of_nat k) in
    refs st1
    = refs st0 ++ tp_refs app
      ++ groups_refs dlhClass readerClass (UID app) uid_base 0 (take k groups)
      ++ ((ids ≫= stream_refs dlhClass uid_base) ++ [r])
      ++ groups_refs dlhClass readerClass (UID app) uid_base (Z.of_nat k + 1)
           (drop (S k) groups) ∧
    (r ∉ refs st0) ∧
    filter (λ o, obj_ref o = r) st1 = [reader] ∧
    get_field r "outputs" st1 = Some (VObjs outputs) ∧
    get_field r "configuration" st1 = Some (VObj (dr_config_object rdrConf)) ∧
    get_field r "inputs" st1 = None ∧
    Forall2 (λ id o, o ∈ refs st1 ∧
                     ref_uid o = "inputToDLH-" +:+ pretty id ∧
                     is_connection (ref_class o) = true)
            ids outputs ∧
    ((∀ id r', id ∈ ids → r' ∈ refs st1 → is_connection (ref_class r') = true →
               ref_uid r' = "inputToDLH-" +:+ pretty id → r' = queue_ref id) →
     outputs = queue_ref <$> ids) ∧
    ∀ id, id ∈ ids →
      (queue_ref id ∉ refs st0) ∧
      ∃ queue, filter (λ o, obj_ref o = queue_ref id) st1 = [queue].
Proof.
  intros H Hk.
  destruct (created_reader_obj _ _ _ _ _ _ _ H Hk) as (rdrConf & outputs & Hrd & Hin & Hout).
  pose proof (generate_modules_Done _ _ _ _ _ H) as (_ & _ & _ & [[dlhConf Hlh] _ _ _]).
  exists dlhConf, rdrConf, (reader_obj rdrConf (UID app) (Z.of_nat k) outputs), outputs.
  destruct (created_unique _ _ _ _ _ _ H Hin) as [Hnew Huniq].
  pose proof (created_get_field _ _ _ _ _ _ "outputs" H Hin) as Hfo.
  pose proof (created_get_field _ _ _ _ _ _ "configuration" H Hin) as Hfc.
  pose proof (created_get_field _ _ _ _ _ _ "inputs" H Hin) as Hfi.
  split; [done|]. split; [done|]. cbv zeta.
  split_and!; [|done|done|by etrans; [exact Hfo|]|by etrans; [exact Hfc|]
              |by etrans; [exact Hfi|]| | |].
  - rewrite (refs_generated _ _ _ _ _ H). unfold created_refs. rewrite Hlh, Hrd.
    by rewrite (groups_refs_lookup _ _ _ _ _ _ _ Hk).
  - eapply Forall2_impl; [exact Hout|]. intros id o (rs' & Hsub & Hlook).
    apply lookup_connection_Some in Hlook as (Ho & Hc & Hu). split_and!; [|done|done].
    by apply Hsub.
  - intros Huniq'. apply (Forall2_eq_fmap (λ id, id ∈ ids)); [|by apply Forall_forall].
    eapply Forall2_impl; [exact Hout|]. intros id o (rs' & Hsub & Hlook) Hid.
    apply lookup_connection_Some in Hlook as (Ho & Hc & Hu).
    by apply (Huniq' id o Hid); [apply Hsub| |].
  - intros id Hid.
    assert (id ∈ concat (processed_groups session (get_contains app))) as Hc.
    { eapply elem_of_concat_group; [|done]. by eapply list_elem_of_lookup_2. }
    apply list_elem_of_lookup in Hc as [j Hj].
    destruct (created_stream_objs _ _ _ _ _ _ _ H Hj)
      as (dlhConf' & qdesc & ndesc & rs & _ & _ & _ & Hobjs).
    assert (queue_obj qdesc id ∈ created_objs (refs st0) app session) as Hq.
    { apply Hobjs. unfold stream_objs. set_solver. }
    destruct (created_unique _ _ _ _ _ _ H Hq) as [Hqnew Hquniq].
    split; [done|]. by exists (queue_obj qdesc id).
Qed.

(** C8 (amended): a call that returns hands back the TP handler first when
    one is configured, then for each processed group in declaration order
    the handlers of its enabled streams followed by its reader: [N + G]
    modules, one more when a TP handler is configured. *)
Theorem returned_modules_order_and_count app session st0 mods st1 :
  generate_modules app session st0 = (Done mods, st1) →
  ∃ dlhConf rdrConf,
    get_link_handler app = Some dlhConf ∧
    get_data_reader app = Some rdrConf ∧
    let groups := processed_groups session (get_contains app) in
    mods = match get_tp_handler app with
           | Some _ => [tp_ref (get_tp_src_id app)]
           | None => []
           end
           ++ groups_modules (lh_template_for dlhConf) (dr_template_for rdrConf)
                (UID app) 0 groups ∧
    length mods = (length (concat groups) + length groups
                   + match get_tp_handler app with Some _ => 1 | None => 0 end)%nat.
Proof.
  intros H. apply generate_modules_Done in H as (_ & -> & _ & [[dlhConf Hlh] [rdrConf Hrd] _ _]).
  exists dlhConf, rdrConf. unfold returned_modules, tp_modules. rewrite Hlh, Hrd.
  split_and!; [done..|].
  rewrite length_app, length_groups_modules. destruct (get_tp_handler app); simpl; lia.
Qed.


(** ** What the identifiers and the ports depend on *)

Lemma port_of_stream_objs rs dlhConf tpq qdesc ndesc off id :
  port_of <$> stream_objs rs dlhConf tpq qdesc ndesc off id
  = [(dlh_ref (lh_template_for dlhConf) id, None);
     (queue_ref id, None);
     (net_ref (nd_uid_base ndesc) id,
      Some (VU16 (stream_port (nd_port ndesc) off)))].
Proof.
  unfold stream_objs. rewrite !fmap_cons, fmap_nil. unfold port_of.
  rewrite obj_ref_dlh_obj. do 2 f_equal. unfold dlh_obj. by destruct tpq.
Qed.

Lemma port_of_streams_objs rs1 rs2 d1 d2 tpq1 tpq2 q1 q2 n1 n2 off ids :
  lh_template_for d1 = lh_template_for d2 →
  nd_uid_base n1 = nd_uid_base n2 → nd_port n1 = nd_port n2 →
  port_of <$> streams_objs rs1 d1 tpq1 q1 n1 off ids
  = port_of <$> streams_objs rs2 d2 tpq2 q2 n2 off ids.
Proof.
  intros Hc Hb Hp. revert rs1 rs2 off.
  induction ids as [|id ids IH]; intros rs1 rs2 off; [done|].
  cbn [streams_objs]. rewrite !fmap_app, !port_of_stream_objs, Hc, Hb, Hp.
  f_equal. apply IH.
Qed.

Lemma port_of_groups_objs rs1 rs2 d1 d2 r1 r2 appUid tpq1 tpq2 dq1 dq2 dn1 dn2
    rnum off groups :
  lh_template_for d1 = lh_template_for d2 →
  dr_template_for r1 = dr_template_for r2 →
  (λ n, (nd_uid_base n, nd_port n)) <$> dn1 = (λ n, (nd_uid_base n, nd_port n)) <$> dn2 →
  (concat groups ≠ [] → is_Some dq1 ∧ is_Some dq2) →
  port_of <$> groups_objs rs1 d1 r1 appUid tpq1 dq1 dn1 rnum off groups
  = port_of <$> groups_objs rs2 d2 r2 appUid tpq2 dq2 dn2 rnum off groups.
Proof.
  intros Hc Hr Hn. revert rs1 rs2 rnum off.
  induction groups as [|ids groups IH]; intros rs1 rs2 rnum off Hdesc; [done|].
  cbn [groups_objs]. rewrite !fmap_app, !fmap_cons. f_equal; [|f_equal].
  - destruct ids as [|id ids]; [by rewrite !group_stream_objs_nil|].
    destruct Hdesc as [[q1 ->] [q2 ->]]; [done|].
    destruct dn1 as [n1|], dn2 as [n2|]; try done.
    injection Hn as Hb Hp. by apply port_of_streams_objs.
  - unfold port_of, reader_obj, reader_ref. cbn [obj_ref set_field obj_fields].
    by rewrite Hr.
  - apply IH. intros Hne. apply Hdesc. simpl. intros Heq.
    by apply app_eq_nil in Heq as [_ Heq].
Qed.

Lemma refs_port_of (st : Store) : refs st = (port_of <$> st).*1.
Proof. unfold refs. rewrite <- list_fmap_compose. by apply list_fmap_ext. Qed.

Lemma get_field_port_of r (st1 st2 : Store) :
  port_of <$> st1 = port_of <$> st2 →
  get_field r "port" st1 = get_field r "port" st2.
Proof.
  revert st2. induction st1 as [|o1 st1 IH]; intros [|o2 st2] Heq; try done.
  rewrite !fmap_cons in Heq. injection Heq as Href Hport Heq.
  unfold get_field, get_obj in *. cbn [find]. rewrite Href.
  case_bool_decide; [done|]. by apply IH.
Qed.

(** Two applications, each with its session, that agree on [naming]: the
    objects they create carry the same references and the same ports, and
    the same modules are handed back. *)
Lemma created_objs_naming rs1 rs2 app1 app2 (s1 s2 : Session) :
  naming app1 s1 = naming app2 s2 →
  Configured app1 s1 → Configured app2 s2 →
  port_of <$> created_objs rs1 app1 s1 = port_of <$> created_objs rs2 app2 s2 ∧
  returned_modules app1 s1 = returned_modules app2 s2.
Proof.
  intros Hnm [[d1 Hlh1] [r1 Hrd1] Htp1 Hdlh1] [[d2 Hlh2] [r2 Hrd2] Htp2 Hdlh2].
  specialize (Htp1 d1 Hlh1). specialize (Htp2 d2 Hlh2).
  specialize (Hdlh1 d1 Hlh1). specialize (Hdlh2 d2 Hlh2).
  unfold naming in Hnm. rewrite Hlh1, Hlh2, Hrd1, Hrd2 in Hnm.
  injection Hnm as Huid Hcls Hrcls Haddr Htp Hgroups. cbn [mbind option_bind] in Haddr, Htp.
  unfold created_objs, returned_modules. rewrite Hlh1, Hlh2, Hrd1, Hrd2.
  rewrite <- Hcls in *. rewrite <- Hgroups in *. rewrite Huid, Hrcls. split.
  - rewrite !fmap_app. f_equal.
    + unfold created_tp_objs.
      destruct (get_tp_handler app1) as [c1|], (get_tp_handler app2) as [c2|]; try done.
      destruct Htp1 as ([tq1 ->] & [tn1 Htn1] & _); [by eexists|].
      destruct Htp2 as ([tq2 ->] & [tn2 Htn2] & _); [by eexists|].
      rewrite Htn1, Htn2 in Htp |- *. injection Htp as Hsrc Hport.
      unfold tp_objs. rewrite !fmap_cons. unfold port_of.
      cbn [obj_ref tp_queue_obj tp_net_obj tp_obj set_field obj_fields]. by rewrite Hsrc, Hport.
    + assert (tp_refs app1 = tp_refs app2) as Htprefs.
      { unfold tp_refs.
        destruct (get_tp_handler app1), (get_tp_handler app2); try done.
        by injection Htp as -> _. }
      apply port_of_groups_objs; [done|done| |].
      * by destruct (scan_network_rules (lh_template_for d1) app1).1,
          (scan_network_rules (lh_template_for d1) app2).1.
      * intros Hne. destruct (Hdlh1 Hne) as [? _]. by destruct (Hdlh2 Hne) as [? _].
  - f_equal. unfold tp_modules.
    destruct (get_tp_handler app1), (get_tp_handler app2); try done.
    by injection Htp as -> _.
Qed.

(** ** Resources of the expected class *)

Lemma streams_loop_Done_typed session dlhConf dq dn tpq members vars st v st' :
  for_each (stream_body session dlhConf dq dn tpq) members vars st = (Done v, st') →
  Forall is_stream members.
Proof.
  revert vars st. induction members as [|res members IH]; intros vars st H; [done|].
  rewrite for_each_cons in H. apply bind_Done in H as (vars1 & st1 & Hb & H).
  constructor; [|by eapply IH].
  destruct res as [stream|uid d]; [done|]. by destruct vars as [[? ?] ?].
Qed.

Lemma groups_loop_Done_typed app session dlhConf rdrConf dq dn tpq resources vars st v st' :
  for_each (group_body app session dlhConf rdrConf dq dn tpq) resources vars st
    = (Done v, st') →
  Forall (well_typed session) resources.
Proof.
  revert vars st. induction resources as [|res resources IH]; intros vars st H; [done|].
  rewrite for_each_cons in H. apply bind_Done in H as (vars1 & st1 & Hb & H).
  constructor; [|by eapply IH].
  intros Hen. unfold group_body in Hb. destruct vars as [[rnum off] mods].
  rewrite Hen in Hb. destruct res as [rset|uid d]; [|done].
  apply bind_Done in Hb as (vars2 & st2 & Hl & _).
  by eapply streams_loop_Done_typed.
Qed.

Lemma generate_modules_Done_typed app session st0 mods st1 :
  generate_modules app session st0 = (Done mods, st1) →
  Forall (well_typed session) (get_contains app).
Proof.
  intros H. unfold generate_modules in H.
  apply bind_Done in H as (dlhConf & ? & _ & H).
  destruct (scan_queue_rules (lh_template_for dlhConf) app) as [dq tq].
  destruct (scan_network_rules (lh_template_for dlhConf) app) as [dn tn].
  apply bind_Done in H as ([tpq mods1] & st' & _ & H).
  destruct (get_data_reader app) as [rdrConf|]; [|done].
  apply bind_Done in H as (vars & st2 & Hl & _).
  by eapply groups_loop_Done_typed.
Qed.

(** ** A second call on the same database *)

Lemma bind_Thrown {A B} (m : M A) (k : A → M B) st e st' :
  m st = (Thrown e, st') → bind m k st = (Thrown e, st').
Proof. unfold bind. by intros ->. Qed.

Lemma bind_create_taken {B} cls uid (k : ObjRef → M B) st :
  mkRef cls uid ∈ refs st →
  bind (create cls uid) k st = (Thrown (StoreError (mkRef cls uid)), st).
Proof. intros Hin. unfold bind, create. by rewrite bool_decide_true. Qed.

Lemma head_groups_refs_None dlhClass readerClass appUid base rnum (groups : list (list N)) :
  head (groups_refs dlhClass readerClass appUid base rnum groups) = None → groups = [].
Proof.
  destruct groups as [|ids groups]; [done|]. cbn [groups_refs].
  by destruct (ids ≫= stream_refs dlhClass base).
Qed.

Lemma streams_loop_taken session dlhConf dq dn tpq members vars st :
  Forall is_stream members →
  (∀ id, id ∈ enabled_ids session members →
         dlh_ref (lh_template_for dlhConf) id ∈ refs st) →
  for_each (stream_body session dlhConf dq dn tpq) members vars st
  = match head (enabled_ids session members) with
    | Some id => (Thrown (StoreError (dlh_ref (lh_template_for dlhConf) id)), st)
    | None => (Done vars, st)
    end.
Proof.
  induction 1 as [|res members Hres _ IH]; intros Hin; [done|].
  destruct res as [stream|uid d]; [|done].
  rewrite for_each_cons. rewrite enabled_ids_cons in *. cbn [stream_id] in *.
  destruct (st_disabled stream session) eqn:Hdis.
  - rewrite stream_body_disabled by done. by apply IH.
  - cbn [head]. apply bind_Thrown. unfold stream_body. destruct vars as [[off oq] mods].
    rewrite Hdis. apply bind_create_taken. apply Hin. by left.
Qed.

Lemma groups_loop_taken app session dlhConf rdrConf dq dn tpq base resources
    rnum off mods st :
  Forall (well_typed session) resources →
  let created := groups_refs (lh_template_for dlhConf) (dr_template_for rdrConf)
                   (UID app) base rnum (processed_groups session resources) in
  (∀ r, r ∈ created → r ∈ refs st) →
  for_each (group_body app session dlhConf rdrConf dq dn tpq) resources
    (rnum, off, mods) st
  = match head created with
    | Some r => (Thrown (StoreError r), st)
    | None => (Done (rnum, off, mods), st)
    end.
Proof.
  intros Hty. revert rnum off mods.
  induction Hty as [|res resources Hres _ IH]; intros rnum off mods created Hin; [done|].
  subst created. rewrite for_each_cons. unfold processed_groups in *.
  cbn [omap list_omap] in *. unfold well_typed in Hres.
  destruct res as [rset|uid d]; cbn [group_ids res_disabled] in *.
  - destruct (rg_disabled rset session) eqn:Hdis.
    + unfold group_body at 1. cbn [res_disabled]. rewrite Hdis.
      change (bind (ret (rnum, off, mods)) ?k st) with (k (rnum, off, mods) st).
      by apply IH.
    + cbn [groups_refs] in *. unfold group_body at 1. cbn [res_disabled]. rewrite Hdis.
      assert (∀ id, id ∈ enabled_ids session (rg_contains rset) →
                    dlh_ref (lh_template_for dlhConf) id ∈ refs st) as Hids.
      { intros id Hid. apply Hin, elem_of_app. left.
        apply list_elem_of_bind. exists id. split; [by left|done]. }
      pose proof (streams_loop_taken session dlhConf dq dn tpq (rg_contains rset)
                    (off, [], mods) st (Hres eq_refl) Hids) as Hs.
      destruct (enabled_ids session (rg_contains rset)) as [|id ids].
      * cbn [head mbind list_bind Datatypes.app] in *. apply bind_Thrown.
        rewrite (bind_step _ _ _ _ _ Hs). apply bind_create_taken. apply Hin. by left.
      * cbn [head] in Hs. by apply bind_Thrown, bind_Thrown.
  - destruct (d session) eqn:Hdis; [|by destruct Hres].
    unfold group_body at 1. cbn [res_disabled]. rewrite Hdis.
    change (bind (ret (rnum, off, mods)) ?k st) with (k (rnum, off, mods) st).
    by apply IH.
Qed.

Lemma generate_modules_again app session st0 mods st1 :
  generate_modules app session st0 = (Done mods, st1) →
  mods ≠ [] →
  ∃ r, head (created_refs app session) = Some r ∧
       generate_modules app session st1 = (Thrown (StoreError r), st1).
Proof.
  intros H Hne. pose proof (generate_modules_Done_typed _ _ _ _ _ H) as Hty.
  pose proof (refs_generated _ _ _ _ _ H) as Hrefs.
  apply generate_modules_Done in H as (_ & -> & Hfr & Hcfg).
  assert (∀ r, r ∈ created_refs app session → r ∈ refs st1) as Hin.
  { intros r Hr. rewrite Hrefs. apply elem_of_app. by right. }
  destruct Hcfg as [[dlhConf Hlh] [rdrConf Hrd] Htp _]. specialize (Htp dlhConf Hlh).
  unfold generate_modules, created_refs, returned_modules in *.
  rewrite Hlh, Hrd in *. rewrite bind_deref_Some.
  destruct (scan_queue_rules (lh_template_for dlhConf) app) as [dq tq].
  destruct (scan_network_rules (lh_template_for dlhConf) app) as [dn tn].
  cbn [fst snd] in *. unfold tp_refs, tp_modules in *.
  destruct (get_tp_handler app) as [tpHandlerConf|] eqn:Htph.
  - destruct Htp as ([qdesc ->] & [ndesc ->] & Hsrc); [by eauto|].
    exists (tp_queue_ref (get_tp_src_id app)). split; [done|].
    apply bind_Thrown. unfold create_tp_handler. rewrite Htph.
    apply N.eqb_neq in Hsrc. rewrite Hsrc. apply bind_create_taken, Hin. by left.
  - rewrite create_tp_handler_absent by done.
    change (bind (ret (None, [])) ?k st1) with (k (None, []) st1). cbv beta iota.
    rewrite app_nil_l in *. unfold bind.
    rewrite (groups_loop_taken app session dlhConf rdrConf dq dn None
               (from_option nd_uid_base "" dn) _ 0 0 [] st1 Hty Hin).
    destruct (head (groups_refs _ _ _ _ _ _)) as [r|] eqn:Hhd.
    + by exists r.
    + apply head_groups_refs_None in Hhd. rewrite Hhd in Hne. done.
Qed.

(** C9 (amended): a call is a function of its inputs, and what its
    identifiers, ports and module list are computed from is [naming]: two
    runs from the empty database that return, on applications and sessions
    that agree on [naming], leave objects with the same references in the
    same order and with the same ports, and hand back the same modules,
    whatever else differs between the two applications.  Generation
    repeated on the database that the first run has filled creates
    nothing: it stops with the database's error for the first identifier
    of the first run. *)
Theorem identifiers_are_a_function_of_naming app1 app2 (s1 s2 : Session)
    mods1 st1 mods2 st2 :
  naming app1 s1 = naming app2 s2 →
  generate_modules app1 s1 [] = (Done mods1, st1) →
  generate_modules app2 s2 [] = (Done mods2, st2) →
  refs st1 = refs st2 ∧
  refs st1 = created_refs app1 s1 ∧
  (∀ r, get_field r "port" st1 = get_field r "port" st2) ∧
  mods1 = mods2 ∧
  (mods1 ≠ [] →
   ∃ r, head (refs st1) = Some r ∧
        generate_modules app1 s1 st1 = (Thrown (StoreError r), st1)).
Proof.
  intros Hnm H1 H2.
  pose proof (refs_generated _ _ _ _ _ H1) as Hrefs. rewrite app_nil_l in Hrefs.
  pose proof (generate_modules_again _ _ _ _ _ H1) as Hagain.
  apply generate_modules_Done in H1 as (-> & -> & _ & Hcfg1).
  apply generate_modules_Done in H2 as (-> & -> & _ & Hcfg2).
  rewrite !app_nil_l in *. change (refs []) with (@nil ObjRef) in *.
  destruct (created_objs_naming [] [] _ _ _ _ Hnm Hcfg1 Hcfg2) as [Hports Hmods].
  split_and!; [|done| |done|].
  - by rewrite !refs_port_of, Hports.
  - intros r. by apply get_field_port_of.
  - intros Hne. rewrite Hrefs. by apply Hagain.
Qed.

(** ** TP handler preconditions *)

Lemma generate_modules_tp_throws app session st0 dlhConf e :
  get_link_handler app = Some dlhConf →
  create_tp_handler app (scan_queue_rules (lh_template_for dlhConf) app).2
    (scan_network_rules (lh_template_for dlhConf) app).2 [] st0 = (Thrown e, st0) →
  generate_modules app session st0 = (Thrown e, st0).
Proof.
  intros Hlh Htp. unfold generate_modules. rewrite Hlh. unfold bind at 1. simpl.
  destruct (scan_queue_rules (lh_template_for dlhConf) app) as [dq tq].
  destruct (scan_network_rules (lh_template_for dlhConf) app) as [dn tn].
  unfold bind at 1. simpl in Htp. by rewrite Htp.
Qed.

(** C4: with a TP handler configured, a missing network descriptor, a
    missing queue descriptor and a zero source id each make the call throw
    its own issue, the database being as it was before the call; when the
    three are in order (and the three identifiers are free in the
    database) the TP block creates exactly the queue ["inputToTPH-<id>"],
    the network connection ["ReqToTPH-<id>"] and the TP handler
    ["tphandler-<id>"], whose [inputs] are that queue and that connection
    and whose [handler_configuration] is the configured object, and adds
    the handler to the module list; a call that returns has created these
    three first and returns the handler first.  Without a TP handler
    configured the block creates nothing and throws nothing. *)
Theorem tp_handler_preconditions_and_records app session st0 dlhConf :
  get_link_handler app = Some dlhConf →
  let tq := (scan_queue_rules (lh_template_for dlhConf) app).2 in
  let tn := (scan_network_rules (lh_template_for dlhConf) app).2 in
  let src := get_tp_src_id app in
  (∀ tpHandlerConf, get_tp_handler app = Some tpHandlerConf →
     (tn = None →
        generate_modules app session st0 = (Thrown (BadConf NO_TP_NET), st0)) ∧
     (is_Some tn → tq = None →
        generate_modules app session st0 = (Thrown (BadConf NO_TP_QUEUE), st0)) ∧
     (is_Some tn → is_Some tq → src = 0 →
        generate_modules app session st0 = (Thrown (BadConf NO_TP_SRC), st0)) ∧
     (∀ qdesc ndesc, tq = Some qdesc → tn = Some ndesc → src ≠ 0 →
        let queue := tp_queue_obj qdesc src in
        let net := tp_net_obj ndesc src in
        let tph := tp_obj tpHandlerConf src in
        obj_ref queue = mkRef "Queue" ("inputToTPH-" +:+ pretty src) ∧
        obj_ref net = mkRef "NetworkConnection" ("ReqToTPH-" +:+ pretty src) ∧
        obj_ref tph = mkRef "TPHandler" ("tphandler-" +:+ pretty src) ∧
        obj_fields tph !! "inputs" = Some (VObjs [obj_ref queue; obj_ref net]) ∧
        obj_fields tph !! "handler_configuration"
          = Some (VObj (tph_config_object tpHandlerConf)) ∧
        (obj_ref queue ∉ refs st0 → obj_ref net ∉ refs st0 → obj_ref tph ∉ refs st0 →
           create_tp_handler app tq tn [] st0
           = (Done (Some (obj_ref queue), [obj_ref tph]), st0 ++ [queue; net; tph])) ∧
        (∀ mods st1, generate_modules app session st0 = (Done mods, st1) →
           ∃ objs mods', st1 = st0 ++ [queue; net; tph] ++ objs ∧
                         mods = obj_ref tph :: mods'))) ∧
  (BadConf NO_TP_NET ≠ BadConf NO_TP_QUEUE ∧
   BadConf NO_TP_NET ≠ BadConf NO_TP_SRC ∧
   BadConf NO_TP_QUEUE ≠ BadConf NO_TP_SRC) ∧
  (get_tp_handler app = None →
     ∀ mods st, create_tp_handler app tq tn mods st = (Done (None, mods), st)).
Proof.
  intros Hlh tq tn src. split_and!; [|done|done|done|].
  - intros tpHandlerConf Htp. split_and!.
    + intros Hn. apply (generate_modules_tp_throws _ _ _ _ _ Hlh).
      fold tq tn. unfold create_tp_handler. by rewrite Htp, Hn.
    + intros [ndesc Hn] Hq. apply (generate_modules_tp_throws _ _ _ _ _ Hlh).
      fold tq tn. unfold create_tp_handler. by rewrite Htp, Hn, Hq.
    + intros [ndesc Hn] [qdesc Hq] Hsrc. apply (generate_modules_tp_throws _ _ _ _ _ Hlh).
      fold tq tn. unfold create_tp_handler. rewrite Htp, Hn, Hq. fold src. by rewrite Hsrc.
    + intros qdesc ndesc Hq Hn Hsrc queue net tph. split_and!; [done..| |].
      * intros Hfq Hfn Hft. rewrite Hq, Hn.
        by apply (create_tp_handler_creates _ _ _ _ [] _ Htp Hsrc).
      * intros mods st1 H.
        apply generate_modules_Done in H as (-> & -> & _ & [_ [rdrConf Hrd] _ _]).
        unfold created_objs, returned_modules, created_tp_objs, tp_modules.
        rewrite Hlh, Hrd, Htp. fold tq tn. rewrite Hq, Hn. by eexists _, _.
  - intros Htp mods st. by rewrite create_tp_handler_absent.
Qed.

(** ** When the call returns *)

Section Returns.

(** The schema derives the two classes the stream loop creates its
    connections in from [Connection]. *)
Hypothesis queue_derives : is_connection "Queue" = true.
Hypothesis network_derives : is_connection "NetworkConnection" = true.

Lemma stream_lookups_found rs dlhClass uid_base id :
  is_Some (lookup_connection ("inputToDLH-" +:+ pretty id)
             (rs ++ stream_refs dlhClass uid_base id)) ∧
  is_Some (lookup_connection (uid_base +:+ setw_fill 8 "0" (to_hex id))
             (rs ++ stream_refs dlhClass uid_base id)).
Proof.
  split.
  - apply (lookup_connection_is_Some _ _ (queue_ref id)); [|done|done].
    apply elem_of_app. right. unfold stream_refs. set_solver.
  - apply (lookup_connection_is_Some _ _ (net_ref uid_base id)); [|done|done].
    apply elem_of_app. right. unfold stream_refs. set_solver.
Qed.

Lemma streams_outputs_is_Some rs dlhClass uid_base ids :
  Forall is_Some (streams_outputs rs dlhClass uid_base ids).
Proof.
  revert rs. induction ids as [|id ids IH]; intros rs; [constructor|].
  rewrite streams_outputs_cons. constructor; [|apply IH].
  apply stream_lookups_found.
Qed.

Lemma stream_body_creates session dlhConf qdesc ndesc tpq stream off oq mods st :
  st_disabled stream session = false →
  Fresh st (stream_objs (refs st) dlhConf tpq qdesc ndesc off (st_src_id stream)) →
  stream_body session dlhConf (Some qdesc) (Some ndesc) tpq (IsStream stream)
    (off, oq, mods) st
  = (Done ((off + 1)%Z,
           oq ++ [stream_output
                    (refs st ++ stream_refs (lh_template_for dlhConf) (nd_uid_base ndesc)
                                  (st_src_id stream))
                    (st_src_id stream)],
           mods ++ [dlh_ref (lh_template_for dlhConf) (st_src_id stream)]),
     st ++ stream_objs (refs st) dlhConf tpq qdesc ndesc off (st_src_id stream)).
Proof.
  intros Hen Hfr.
  apply (Fresh_snoc_inv st [_; _]) in Hfr as [Hfr Hn].
  apply (Fresh_snoc_inv st [_]) in Hfr as [Hfr Hq].
  apply (Fresh_snoc_inv st []) in Hfr as [_ Hd].
  rewrite app_nil_r, obj_ref_dlh_obj in Hd.
  apply not_elem_of_refs_snoc in Hq as [Hq_st Hq_d].
  rewrite refs_app, not_elem_of_app in Hn. destruct Hn as [Hn_st Hn].
  unfold refs in Hn. rewrite !fmap_cons, fmap_nil, !not_elem_of_cons in Hn.
  destruct Hn as (Hn_d & Hn_q & _).
  rewrite obj_ref_dlh_obj in Hq_d, Hn_d.
  set (dlh' := with_outputs tpq
    (set_field "handler_configuration" (VObj (lh_config_object dlhConf))
      (set_field "source_id" (VU32 (st_src_id stream))
        (mkObj (dlh_ref (lh_template_for dlhConf) (st_src_id stream)) ∅)))).
  assert (queue_ref (st_src_id stream) ∉ refs (st ++ [dlh'])) as Hq'.
  { apply not_elem_of_refs_snoc. subst dlh'. by rewrite obj_ref_with_outputs. }
  assert (net_ref (nd_uid_base ndesc) (st_src_id stream)
            ∉ refs ((st ++ [dlh']) ++ [queue_obj qdesc (st_src_id stream)])) as Hn'.
  { apply not_elem_of_refs_snoc. split; [|exact Hn_q].
    apply not_elem_of_refs_snoc. subst dlh'. by rewrite obj_ref_with_outputs. }
  set (rs' := refs st ++ stream_refs (lh_template_for dlhConf) (nd_uid_base ndesc)
                           (st_src_id stream)).
  assert (refs (((st ++ [dlh']) ++ [queue_obj qdesc (st_src_id stream)])
                ++ [net_obj ndesc off (st_src_id stream)]) = rs') as Hrs.
  { rewrite refs_after_stream. subst dlh'. by rewrite obj_ref_with_outputs. }
  destruct (stream_lookups_found (refs st) (lh_template_for dlhConf) (nd_uid_base ndesc)
              (st_src_id stream)) as [[o1 Ho1] [o2 Ho2]].
  fold rs' in Ho1, Ho2.
  unfold stream_body. rewrite Hen.
  rewrite bind_create by exact Hd.
  unfold set_obj. rewrite !bind_set_last by done.
  rewrite bind_with_outputs by done. fold dlh'.
  rewrite bind_create by exact Hq'.
  rewrite bind_deref_Some, !bind_set_last by (done || exact Hq').
  rewrite bind_deref_Some, bind_create by exact Hn'.
  rewrite !bind_set_last by (done || exact Hn').
  erewrite bind_get_connection by exact Hrs. rewrite Ho1, bind_deref_Some.
  erewrite bind_get_connection by exact Hrs. rewrite Ho2, bind_deref_Some.
  unfold set_objs, set_by_val, get_connection, bind, ret.
  rewrite refs_alter_obj_set.
  rewrite alter_obj_skip by exact Hn_d.
  rewrite alter_obj_skip by exact Hq_d.
  rewrite alter_obj_last; [|done|by subst dlh'; rewrite obj_ref_with_outputs].
  rewrite refs_after_stream. subst dlh'. rewrite obj_ref_with_outputs, <- !app_assoc.
  unfold stream_objs, dlh_obj, stream_inputs. fold rs'.
  cbn [omap list_omap queue_ref net_ref ref_uid]. by rewrite Ho1, Ho2.
Qed.

Lemma streams_loop_creates session dlhConf dq dn tpq members off oq mods st :
  Forall is_stream members →
  let ids := enabled_ids session members in
  (ids ≠ [] → is_Some dq ∧ is_Some dn) →
  Fresh st (group_stream_objs (refs st) dlhConf tpq dq dn off ids) →
  for_each (stream_body session dlhConf dq dn tpq) members (off, oq, mods) st
  = (Done ((off + Z.of_nat (length ids))%Z,
           oq ++ streams_outputs (refs st) (lh_template_for dlhConf)
                   (from_option nd_uid_base "" dn) ids,
           mods ++ (dlh_ref (lh_template_for dlhConf) <$> ids)),
     st ++ group_stream_objs (refs st) dlhConf tpq dq dn off ids).
Proof.
  intros Hty. revert off oq mods st.
  induction Hty as [|res members Hres _ IH]; intros off oq mods st ids Hdesc Hfr.
  - subst ids. simpl. by rewrite group_stream_objs_nil, !app_nil_r, Z.add_0_r.
  - destruct res as [stream|uid d]; [|done]. subst ids.
    rewrite enabled_ids_cons in *. cbn [stream_id] in *. rewrite for_each_cons.
    destruct (st_disabled stream session) eqn:Hdis.
    + rewrite stream_body_disabled by done. by apply IH.
    + destruct Hdesc as [[qdesc ->] [ndesc ->]]; [done|].
      rewrite group_stream_objs_cons in *. apply Fresh_app_inv in Hfr as [Hfr1 Hfr2].
      rewrite (bind_step _ _ _ _ _ (stream_body_creates _ _ _ _ _ _ _ _ _ _ Hdis Hfr1)).
      rewrite <- (refs_stream_objs (refs st) dlhConf tpq qdesc ndesc off (st_src_id stream)),
        <- refs_app in Hfr2 |- *.
      rewrite IH; [|by eauto|done].
      rewrite refs_app, refs_stream_objs.
      rewrite streams_outputs_cons, !fmap_cons, length_cons, <- !app_assoc.
      by replace (off + Z.of_nat (S (length (enabled_ids session members))))%Z
        with (off + 1 + Z.of_nat (length (enabled_ids session members)))%Z by lia.
Qed.

Lemma group_body_creates app session dlhConf rdrConf dq dn tpq rset rnum off mods st :
  rg_disabled rset session = false →
  Forall is_stream (rg_contains rset) →
  let ids := enabled_ids session (rg_contains rset) in
  let dlhClass := lh_template_for dlhConf in
  let uid_base := from_option nd_uid_base "" dn in
  let objs := group_stream_objs (refs st) dlhConf tpq dq dn off ids
                ++ [reader_obj rdrConf (UID app) rnum
                      (group_outputs (refs st) dlhClass uid_base ids)] in
  (ids ≠ [] → is_Some dq ∧ is_Some dn) →
  Fresh st objs →
  group_body app session dlhConf rdrConf dq dn tpq (IsGroup rset) (rnum, off, mods) st
  = (Done ((rnum + 1)%Z, (off + Z.of_nat (length ids))%Z,
           mods ++ (dlh_ref dlhClass <$> ids)
                ++ [reader_ref (dr_template_for rdrConf) (UID app) rnum]),
     st ++ objs).
Proof.
  intros Hen Hty ids dlhClass uid_base objs Hdesc Hfr. subst objs.
  apply Fresh_snoc_inv in Hfr as [Hfr Hr].
  unfold group_body. cbn [res_disabled]. rewrite Hen.
  rewrite (bind_step _ _ _ _ _
             (streams_loop_creates _ _ _ _ _ _ _ _ _ _ Hty Hdesc Hfr)).
  fold ids. rewrite bind_create by exact Hr.
  rewrite (bind_step _ _ _ _ _
             (collect_configs_Some _ _ _
                (streams_outputs_is_Some (refs st) dlhClass uid_base ids))).
  unfold set_objs, set_obj. rewrite !bind_set_last by (done || exact Hr).
  unfold ret. by rewrite <- !app_assoc.
Qed.

Lemma groups_loop_creates app session dlhConf rdrConf dq dn tpq resources rnum off mods st :
  Forall (well_typed session) resources →
  let groups := processed_groups session resources in
  (concat groups ≠ [] → is_Some dq ∧ is_Some dn) →
  Fresh st (groups_objs (refs st) dlhConf rdrConf (UID app) tpq dq dn rnum off groups) →
  ∃ rnum' off',
    for_each (group_body app session dlhConf rdrConf dq dn tpq) resources
      (rnum, off, mods) st
    = (Done (rnum', off',
             mods ++ groups_modules (lh_template_for dlhConf) (dr_template_for rdrConf)
                       (UID app) rnum groups),
       st ++ groups_objs (refs st) dlhConf rdrConf (UID app) tpq dq dn rnum off groups).
Proof.
  intros Hty. revert rnum off mods st.
  induction Hty as [|res resources Hres _ IH]; intros rnum off mods st groups Hdesc Hfr.
  - exists rnum, off. subst groups. simpl. by rewrite !app_nil_r.
  - subst groups. rewrite for_each_cons. unfold processed_groups in *.
    cbn [omap list_omap] in *. unfold well_typed in Hres.
    destruct res as [rset|uid d]; cbn [group_ids res_disabled] in *.
    + destruct (rg_disabled rset session) eqn:Hdis.
      * unfold group_body at 1. cbn [res_disabled]. rewrite Hdis.
        change (bind (ret (rnum, off, mods)) ?k st) with (k (rnum, off, mods) st).
        by apply IH.
      * cbn [groups_objs groups_modules] in *.
        set (ids := enabled_ids session (rg_contains rset)) in *.
        set (outputs := group_outputs (refs st) (lh_template_for dlhConf)
                          (from_option nd_uid_base "" dn) ids) in *.
        rewrite (cons_middle (reader_obj rdrConf (UID app) rnum outputs)), app_assoc in Hfr.
        apply Fresh_app_inv in Hfr as [Hfr1 Hfr2].
        assert (ids ≠ [] → is_Some dq ∧ is_Some dn) as Hdesc1.
        { intros Hne. apply Hdesc. simpl. by destruct ids. }
        rewrite (bind_step _ _ _ _ _
                   (group_body_creates app _ _ _ _ _ _ _ _ _ mods _ Hdis (Hres eq_refl)
                      Hdesc1 Hfr1)).
        fold ids. fold outputs.
        rewrite <- (refs_group_objs (refs st) dlhConf rdrConf (UID app) tpq dq dn rnum off
                      ids outputs Hdesc1), <- refs_app in Hfr2 |- *.
        destruct (IH (rnum + 1)%Z (off + Z.of_nat (length ids))%Z
                     (mods ++ (dlh_ref (lh_template_for dlhConf) <$> ids)
                           ++ [reader_ref (dr_template_for rdrConf) (UID app) rnum])
                     (st ++ group_stream_objs (refs st) dlhConf tpq dq dn off ids
                         ++ [reader_obj rdrConf (UID app) rnum outputs]))
          as (rnum' & off' & Hloop).
        -- intros Hne. apply Hdesc. simpl. intros Heq.
           apply app_eq_nil in Heq as [_ Heq]. done.
        -- exact Hfr2.
        -- exists rnum', off'. rewrite Hloop.
           by rewrite <- !app_assoc.
    + destruct (d session) eqn:Hdis; [|by destruct Hres].
      unfold group_body at 1. cbn [res_disabled]. rewrite Hdis.
      change (bind (ret (rnum, off, mods)) ?k st) with (k (rnum, off, mods) st).
      by apply IH.
Qed.

(** A well-typed, fully configured application whose identifiers are all
    free in the database, with a schema that derives [Queue] and
    [NetworkConnection] from [Connection]: the call returns, having
    created [created_objs]. *)
Lemma generate_modules_returns app session st0 :
  Configured app session →
  Forall (well_typed session) (get_contains app) →
  Fresh st0 (created_objs (refs st0) app session) →
  generate_modules app session st0
  = (Done (returned_modules app session), st0 ++ created_objs (refs st0) app session).
Proof.
  intros [[dlhConf Hlh] [rdrConf Hrd] Htp Hdlh] Hty Hfr.
  specialize (Htp dlhConf Hlh). specialize (Hdlh dlhConf Hlh).
  unfold generate_modules, created_objs, returned_modules in *.
  rewrite Hlh, Hrd in *. rewrite bind_deref_Some.
  destruct (scan_queue_rules (lh_template_for dlhConf) app) as [dq tq].
  destruct (scan_network_rules (lh_template_for dlhConf) app) as [dn tn].
  cbn [fst snd] in *. apply Fresh_app_inv in Hfr as [Hfr1 Hfr2].
  unfold created_tp_objs, tp_queue_of, tp_modules, tp_refs in *.
  destruct (get_tp_handler app) as [tpHandlerConf|] eqn:Htph.
  - destruct Htp as ([qdesc ->] & [ndesc ->] & Hsrc); [by eauto|].
    pose proof Hfr1 as Hfr1'.
    apply (Fresh_snoc_inv st0 [_; _]) in Hfr1 as [Hfr1 Ht].
    apply (Fresh_snoc_inv st0 [_]) in Hfr1 as [Hfr1 Hn].
    apply (Fresh_snoc_inv st0 []) in Hfr1 as [_ Hq].
    rewrite app_nil_r in Hq.
    rewrite refs_app, not_elem_of_app in Hn. destruct Hn as [Hn _].
    rewrite refs_app, not_elem_of_app in Ht. destruct Ht as [Ht _].
    rewrite (bind_step _ _ _ _ _
               (create_tp_handler_creates _ _ _ _ [] _ Htph Hsrc Hq Hn Ht)).
    rewrite <- (refs_tp_objs tpHandlerConf qdesc ndesc (get_tp_src_id app)),
      <- refs_app in Hfr2 |- *.
    destruct (groups_loop_creates app session dlhConf rdrConf dq dn
                (Some (tp_queue_ref (get_tp_src_id app))) (get_contains app) 0%Z 0%Z
                ([] ++ [tp_ref (get_tp_src_id app)])
                (st0 ++ tp_objs tpHandlerConf qdesc ndesc (get_tp_src_id app))
                Hty Hdlh Hfr2) as (rnum' & off' & Hloop).
    rewrite (bind_step _ _ _ _ _ Hloop). unfold ret. by rewrite <- !app_assoc.
  - rewrite create_tp_handler_absent by done. rewrite app_nil_r in Hfr2.
    rewrite app_nil_r in Hfr2 |- *.
    destruct (groups_loop_creates app session dlhConf rdrConf dq dn None
                (get_contains app) 0%Z 0%Z [] st0 Hty Hdlh Hfr2)
      as (rnum' & off' & Hloop).
    change (bind (ret (None, [])) ?k st0) with (k (None, []) st0). cbv beta iota.
    by rewrite (bind_step _ _ _ _ _ Hloop).
Qed.

End Returns.

End Correctness.

(** ** Pointers used without a test *)

Lemma generate_modules_no_link_handler {Session} {lookup : ConnectionLookup}
    (app : ReadoutApplication Session) session st :
  get_link_handler app = None → generate_modules app session st = (NullDeref, st).
Proof. intros H. unfold generate_modules, bind. by rewrite H. Qed.

Lemma generate_modules_no_data_reader {Session} {lookup : ConnectionLookup}
    (app : ReadoutApplication Session) session st dlhConf r st' :
  get_link_handler app = Some dlhConf →
  create_tp_handler app (scan_queue_rules (lh_template_for dlhConf) app).2
    (scan_network_rules (lh_template_for dlhConf) app).2 [] st = (Done r, st') →
  get_data_reader app = None →
  generate_modules app session st = (Thrown (BadConf NO_READER), st').
Proof.
  intros Hlh Htp Hrd. unfold generate_modules. rewrite Hlh. unfold bind at 1. simpl.
  destruct (scan_queue_rules (lh_template_for dlhConf) app) as [dq tq].
  destruct (scan_network_rules (lh_template_for dlhConf) app) as [dn tn].
  unfold bind at 1. simpl in Htp. rewrite Htp. destruct r as [tpq mods].
  by rewrite Hrd.
Qed.

Lemma only_store_errors_bind {A B} (m : M A) (k : A → M B) :
  only_store_errors m → (∀ a, only_store_errors (k a)) → only_store_errors (bind m k).
Proof.
  intros Hm Hk st e st'. unfold bind.
  destruct (m st) as [[a|e'|] st1] eqn:Hst; [apply Hk| |done].
  intros [= <- <-]. by eapply Hm.
Qed.

Lemma only_store_errors_ret {A} (a : A) : only_store_errors (ret a).
Proof. by intros st e st'. Qed.

Lemma only_store_errors_deref {A} (p : option A) : only_store_errors (deref p).
Proof. intros st e st'. unfold deref. by destruct p. Qed.

Lemma only_store_errors_create cls uid : only_store_errors (create cls uid).
Proof.
  intros st e st'. unfold create. case_bool_decide; [|done].
  intros [= <- <-]. by eexists.
Qed.

Lemma only_store_errors_set obj name v : only_store_errors (set_by_val obj name v).
Proof. by intros st e st'. Qed.

Lemma only_store_errors_get {lookup : ConnectionLookup} uid :
  only_store_errors (get_connection uid).
Proof. by intros st e st'. Qed.

(** The body of the stream loop, on a stream, contains no throw of its
    own: a missing link-handler descriptor is never reported as an
    issue. *)
Lemma stream_body_only_store_errors {Session} {lookup : ConnectionLookup}
    (session : Session) dlhConf dq dn tpq stream vars :
  only_store_errors (stream_body session dlhConf dq dn tpq (IsStream stream) vars).
Proof.
  unfold stream_body. destruct vars as [[off oq] mods].
  destruct (st_disabled stream session); [apply only_store_errors_ret|].
  repeat first
    [ apply only_store_errors_ret
    | apply only_store_errors_create
    | apply only_store_errors_set
    | apply only_store_errors_get
    | apply only_store_errors_deref
    | apply only_store_errors_bind; [|intros ?] ].
  destruct tpq; [apply only_store_errors_set|apply only_store_errors_ret].
Qed.

(** A call that reaches an enabled stream without both link-handler
    descriptors does not return. *)
Lemma generate_modules_no_dlh_descriptor {Session} {lookup : ConnectionLookup}
    (app : ReadoutApplication Session) session st dlhConf :
  get_link_handler app = Some dlhConf →
  concat (processed_groups session (get_contains app)) ≠ [] →
  (scan_queue_rules (lh_template_for dlhConf) app).1 = None
  ∨ (scan_network_rules (lh_template_for dlhConf) app).1 = None →
  ∀ mods st', generate_modules app session st ≠ (Done mods, st').
Proof.
  intros Hlh Hne Hnone mods st' H.
  apply generate_modules_Done in H as (_ & _ & _ & [_ _ _ Hdlh]).
  destruct (Hdlh dlhConf Hlh Hne) as [[qdesc Hq] [ndesc Hn]].
  destruct Hnone as [Hnone|Hnone]; congruence.
Qed.

(** * The scenarios, run *)

Import Scenario.

(** ** C1 *)

(** C1, as stated, fails: with one enabled stream in the group the
    reader's [inputs] is not the list of the group's queues; it is not set
    at all, the queues are its [outputs]. *)
Lemma reader_inputs_unset_one_group :
  let st1 := (generate_modules one_group_app tt []).2 in
  let reader := mkRef "DataReader" "datareader-ru-01-0" in
  refs st1 = [mkRef "DLH" "DLH-1"; mkRef "Queue" "inputToDLH-1";
              mkRef "NetworkConnection" "tp_conn_00000001"; reader] ∧
  get_field reader "inputs" st1 ≠ Some (VObjs [mkRef "Queue" "inputToDLH-1"]) ∧
  get_field reader "outputs" st1 = Some (VObjs [mkRef "Queue" "inputToDLH-1"]).
Proof. vm_compute. by split_and!. Qed.

(** The amended C1 on the one-group scenario: the only connection of
    unique id ["inputToDLH-1"] is the queue. *)
Lemma reader_outputs_one_group :
  get_field (mkRef "DataReader" "datareader-ru-01-0") "outputs"
    (generate_modules one_group_app tt []).2
  = Some (VObjs [mkRef "Queue" "inputToDLH-1"]).
Proof.
  assert (generate_modules one_group_app tt []
          = (Done [mkRef "DLH" "DLH-1"; mkRef "DataReader" "datareader-ru-01-0"],
             (generate_modules one_group_app tt []).2)) as H by (by vm_compute).
  destruct (reader_outputs_are_group_queues one_group_app tt [] _ _ 0%nat [1] H eq_refl)
    as (dlhConf & rdrConf & reader & outputs & Hlh & Hrd & Hrest).
  injection Hlh as <-. injection Hrd as <-. cbv zeta in Hrest.
  destruct Hrest as (_ & _ & _ & Hout & _ & _ & _ & Huniq & _).
  rewrite Huniq in Hout; [exact Hout|].
  intros id r' Hid Hr'. apply list_elem_of_singleton in Hid as ->.
  assert (refs (generate_modules one_group_app tt []).2
          = [mkRef "DLH" "DLH-1"; mkRef "Queue" "inputToDLH-1";
             mkRef "NetworkConnection" "tp_conn_00000001";
             mkRef "DataReader" "datareader-ru-01-0"]) as Hlist by (by vm_compute).
  rewrite Hlist, !elem_of_cons in Hr'.
  destruct Hr' as [->|[->|[->|[->|Hr']]]];
    [| | | |apply elem_of_nil in Hr'; destruct Hr'];
    vm_compute; intros Hc Hu;
    first [discriminate Hc | discriminate Hu | reflexivity].
Defined.

(** With stream [0x82104640] and the address template ["inputToDLH-21"]
    the network connection carries the unique id of the queue.  The call
    returns; a library that hands back the newest object of a unique id
    makes the connection the reader's output, and gives the handler the
    connection twice for its inputs. *)
Lemma reader_output_is_network_connection :
  let run := @generate_modules unit newest_connection same_uid_app tt [] in
  let queue := mkRef "Queue" "inputToDLH-2182104640" in
  let net := mkRef "NetworkConnection" "inputToDLH-2182104640" in
  run.1 = Done [mkRef "DLH" "DLH-2182104640"; mkRef "DataReader" "datareader-ru-01-0"] ∧
  refs run.2 = [mkRef "DLH" "DLH-2182104640"; queue; net;
                mkRef "DataReader" "datareader-ru-01-0"] ∧
  get_field (mkRef "DataReader" "datareader-ru-01-0") "outputs" run.2
    = Some (VObjs [net]) ∧
  get_field (mkRef "DLH" "DLH-2182104640") "inputs" run.2 = Some (VObjs [net; net]) ∧
  get_field (mkRef "DataReader" "datareader-ru-01-0") "outputs"
    (generate_modules same_uid_app tt []).2 = Some (VObjs [queue]).
Proof. by vm_compute. Qed.

(** ** C2 and C3: unguarded pointers *)

(** C2, code defect: [get_link_handler()] is dereferenced at line 64
    without the test that guards [get_data_reader()] at line 135.  With no
    link handler configured the call dereferences a null pointer; with no
    data reader configured it throws. *)
Lemma missing_link_handler_is_null_deref :
  generate_modules no_handler_app tt [] = (NullDeref, []) ∧
  generate_modules no_reader_app tt [] = (Thrown (BadConf NO_READER), []).
Proof. split; [by apply generate_modules_no_link_handler|by vm_compute]. Qed.

(** C3, code defect: [dlhInputQDesc] (line 176) and [dlhNetDesc] (line
    182) are dereferenced without the tests that guard [tpNetDesc] and
    [tpInputQDesc] at lines 98-103.  With one enabled stream and no
    matching rule the call dereferences a null pointer, after it has
    created the handler and the queue. *)
Lemma missing_dlh_descriptor_is_null_deref :
  (generate_modules no_queue_rule_app tt []).1 = NullDeref ∧
  refs (generate_modules no_queue_rule_app tt []).2
    = [mkRef "DLH" "DLH-1"; mkRef "Queue" "inputToDLH-1"] ∧
  (generate_modules no_network_rule_app tt []).1 = NullDeref ∧
  refs (generate_modules no_network_rule_app tt []).2
    = [mkRef "DLH" "DLH-1"; mkRef "Queue" "inputToDLH-1"].
Proof. by vm_compute. Qed.

(** ** C4 *)

(** C4 on the TP scenario: source id 7, empty database. *)
Lemma tp_handler_records_source_7 :
  create_tp_handler tp_app (Some q_desc) (Some (n_desc 15000)) [] []
  = (Done (Some (mkRef "Queue" "inputToTPH-7"), [mkRef "TPHandler" "tphandler-7"]),
     [tp_queue_obj q_desc 7; tp_net_obj (n_desc 15000) 7; tp_obj tph_conf 7]) ∧
  obj_fields (tp_queue_obj q_desc 7) !! "capacity" = Some (VU32 10) ∧
  obj_fields (tp_net_obj (n_desc 15000) 7) !! "port" = Some (VU16 15000) ∧
  obj_fields (tp_obj tph_conf 7) !! "inputs"
    = Some (VObjs [mkRef "Queue" "inputToTPH-7";
                   mkRef "NetworkConnection" "ReqToTPH-7"]).
Proof.
  destruct (tp_handler_preconditions_and_records tp_app tt [] lh_conf eq_refl)
    as (Hpresent & _ & _).
  destruct (Hpresent tph_conf eq_refl) as (_ & _ & _ & Hcreate).
  destruct (Hcreate q_desc (n_desc 15000) eq_refl eq_refl ltac:(done))
    as (_ & _ & _ & Hin & _ & Hrun & _).
  split_and!; [|done|done|exact Hin].
  apply Hrun; apply not_elem_of_nil.
Defined.

(** ** C5 *)

(** C5, as stated, fails: when the handler template's class is
    ["TPHandler"] a rule of class ["TPHandler"] is taken for the link
    handler, and the TP-handler descriptor stays unset although the last
    (and only) rule of that class has one; the call then throws for the
    missing TP descriptor. *)
Lemma tp_rule_taken_by_handler_class :
  (scan_queue_rules "TPHandler" tp_class_app).2
    ≠ last_matching is_tp_class (queue_rule <$> get_queue_rules tp_class_app) ∧
  (scan_queue_rules "TPHandler" tp_class_app).2 = None ∧
  last_matching is_tp_class (queue_rule <$> get_queue_rules tp_class_app) = Some q_desc ∧
  generate_modules tp_class_app tt [] = (Thrown (BadConf NO_TP_NET), []).
Proof. by vm_compute. Qed.

(** The amended C5 on a list with two rules for each role. *)
Lemma rule_scan_duplicates :
  scan_queue_rules "FDDLH" dup_rules_app = (Some (q_desc_cap 3), Some (q_desc_cap 4)) ∧
  scan_network_rules "FDDLH" dup_rules_app = (Some (n_desc 2), Some (n_desc 3)).
Proof.
  destruct (rule_scan_last_match_wins "FDDLH" dup_rules_app)
    as (Hq & Hn & Htp & _).
  destruct (Htp ltac:(done)) as [Htq Htn].
  rewrite Hq, Hn in *. cbn [snd] in Htq, Htn. rewrite Htq, Htn. by vm_compute.
Defined.

(** ** C6 *)

(** C6, as stated, fails: with base port 65535 the second stream
    connection gets port 0, not 65536, and the ports do not increase. *)
Lemma second_port_wraps_to_zero :
  let st1 := (generate_modules wrap_app tt []).2 in
  (generate_modules wrap_app tt []).1
    = Done [mkRef "DLH" "DLH-1"; mkRef "DataReader" "datareader-ru-01-0";
            mkRef "DLH" "DLH-2"; mkRef "DataReader" "datareader-ru-01-1"] ∧
  get_field (mkRef "NetworkConnection" "tp_conn_00000001") "port" st1
    = Some (VU16 65535) ∧
  get_field (mkRef "NetworkConnection" "tp_conn_00000002") "port" st1
    = Some (VU16 0) ∧
  get_field (mkRef "NetworkConnection" "tp_conn_00000002") "port" st1
    ≠ Some (VU16 (65535 + 1)).
Proof. vm_compute. by split_and!. Qed.

(** The amended C6 on the one-group scenario: base port 14000, offset 0. *)
Lemma stream_port_one_group :
  get_field (mkRef "NetworkConnection" "tp_conn_00000001") "port"
    (generate_modules one_group_app tt []).2 = Some (VU16 14000).
Proof.
  assert (generate_modules one_group_app tt []
          = (Done [mkRef "DLH" "DLH-1"; mkRef "DataReader" "datareader-ru-01-0"],
             (generate_modules one_group_app tt []).2)) as H by (by vm_compute).
  destruct (stream_ports_offset_mod_uint16 one_group_app tt [] _ _ 0%nat 1 H eq_refl)
    as (dlhConf & ndesc & port & Hlh & Hn & Hport & _ & _ & Hsmall).
  injection Hlh as <-. injection Hn as <-.
  rewrite (Hsmall ltac:(done) ltac:(done)) in Hport. exact Hport.
Defined.

(** ** C10 *)

(** C10 with base port 65535: the second connection gets port 0. *)
Lemma stream_port_wraps_at_65535 :
  get_field (mkRef "NetworkConnection" "tp_conn_00000002") "port"
    (generate_modules wrap_app tt []).2 = Some (VU16 0).
Proof.
  assert (generate_modules wrap_app tt []
          = (Done [mkRef "DLH" "DLH-1"; mkRef "DataReader" "datareader-ru-01-0";
                   mkRef "DLH" "DLH-2"; mkRef "DataReader" "datareader-ru-01-1"],
             (generate_modules wrap_app tt []).2)) as H by (by vm_compute).
  destruct (stream_port_wraps_uint16 wrap_app tt [] _ _ 1%nat 2 H eq_refl)
    as (dlhConf & ndesc & port & Hlh & Hn & Hport & Hwrap).
  injection Hlh as <-. injection Hn as <-.
  destruct (Hwrap ltac:(done)) as (_ & _ & _ & Hzero & _).
  rewrite (Hzero eq_refl) in Hport. exact Hport.
Defined.

(** *** Any number of streams *)

Lemma setw_hex_inj id1 id2 :
  id1 < UINT32_MOD → id2 < UINT32_MOD →
  setw_fill 8 "0" (to_hex id1) = setw_fill 8 "0" (to_hex id2) → id1 = id2.
Proof.
  intros H1 H2 Heq.
  destruct (setw_hex_uint32 id1 H1) as [_ Hr1].
  destruct (setw_hex_uint32 id2 H2) as [_ Hr2].
  rewrite Heq in Hr1. congruence.
Qed.

Lemma NoDup_stream_refs (ids : list N) :
  NoDup ids → Forall (λ id, id < UINT32_MOD) ids →
  NoDup (ids ≫= stream_refs "DLH" "tp_conn_").
Proof.
  induction 1 as [|id ids Hnin Hnd IH]; intros Hlt; [constructor|].
  apply Forall_cons in Hlt as [Hid Hlt]. rewrite bind_cons.
  apply NoDup_app. split_and!; [|intros r Hr Hr'|by apply IH].
  - unfold stream_refs. repeat (apply NoDup_cons; split); [| |apply not_elem_of_nil|constructor].
    + rewrite !not_elem_of_cons. split_and!; [done|done|apply not_elem_of_nil].
    + rewrite !not_elem_of_cons. split_and!; [done|apply not_elem_of_nil].
  - apply list_elem_of_bind in Hr' as (id' & Hr' & Hid').
    assert (id ≠ id') as Hne by (intros ->; done).
    assert (id' < UINT32_MOD) as Hid'lt.
    { rewrite Forall_forall in Hlt. by apply Hlt. }
    unfold stream_refs in Hr, Hr'. rewrite !elem_of_cons in Hr, Hr'.
    destruct Hr as [->|[->|[->|Hr]]]; [| | |by apply elem_of_nil in Hr];
      destruct Hr' as [Hr'|[Hr'|[Hr'|Hr']]];
      try (by apply elem_of_nil in Hr'); try discriminate Hr'.
    + injection Hr' as Hr'. apply Hne. by apply (inj pretty).
    + injection Hr' as Hr'. apply Hne. by apply (inj pretty).
    + injection Hr' as Hr'. apply Hne. by apply setw_hex_inj.
Qed.

Lemma enabled_ids_many (ids : list N) :
  enabled_ids tt ((λ id, stream id enabled) <$> ids) = ids.
Proof.
  induction ids as [|id ids IH]; [done|].
  rewrite fmap_cons, enabled_ids_cons. cbn [stream stream_id st_disabled enabled st_src_id].
  by rewrite IH.
Qed.

Lemma processed_groups_many n :
  processed_groups tt (get_contains (many_streams_app n)) = [many_ids n].
Proof.
  unfold processed_groups, many_streams_app, group. cbn [get_contains omap list_omap group_ids].
  cbn [rg_disabled enabled rg_contains]. by rewrite enabled_ids_many.
Qed.

Lemma many_ids_lookup n k : (k < n)%nat → many_ids n !! k = Some (N.of_nat k).
Proof. intros Hk. unfold many_ids. by rewrite list_lookup_fmap, lookup_seq_lt. Qed.

Lemma many_ids_NoDup n : NoDup (many_ids n).
Proof. unfold many_ids. apply NoDup_fmap; [apply _|apply NoDup_seq]. Qed.

Lemma many_ids_uint32 n :
  N.of_nat n ≤ UINT32_MOD → Forall (λ id, id < UINT32_MOD) (many_ids n).
Proof.
  intros Hn. unfold many_ids. apply Forall_fmap, Forall_seq. intros j Hj. simpl. lia.
Qed.

Lemma many_streams_configured n : Configured (many_streams_app n) tt.
Proof.
  split; [by eexists|by eexists| |].
  - intros dlhConf _ [c Hc]. discriminate Hc.
  - intros dlhConf [= <-] _. split; by eexists.
Qed.

Lemma many_streams_well_typed n :
  Forall (well_typed tt) (get_contains (many_streams_app n)).
Proof.
  repeat constructor. intros _. cbn [group rg_contains].
  apply Forall_fmap, Forall_true. by intros id.
Qed.

Lemma many_streams_fresh n :
  N.of_nat n ≤ UINT32_MOD → Fresh [] (created_objs [] (many_streams_app n) tt).
Proof.
  intros Hn. split; [|intros r _; apply not_elem_of_nil].
  rewrite refs_created_objs by apply many_streams_configured.
  unfold created_refs. cbn [get_link_handler get_data_reader many_streams_app].
  rewrite processed_groups_many.
  change (tp_refs (many_streams_app n)) with (@nil ObjRef). rewrite app_nil_l.
  change (from_option nd_uid_base "" _) with "tp_conn_".
  cbn [groups_refs lh_template_for lh_conf dr_template_for rdr_conf UID].
  apply NoDup_app. split_and!.
  - apply NoDup_stream_refs; [apply many_ids_NoDup|by apply many_ids_uint32].
  - intros r Hr Hr'. apply list_elem_of_singleton in Hr' as ->.
    apply list_elem_of_bind in Hr as (id & Hr & _).
    unfold stream_refs in Hr. rewrite !elem_of_cons in Hr.
    destruct Hr as [Hr|[Hr|[Hr|Hr]]]; [discriminate Hr..|by apply elem_of_nil in Hr].
  - apply NoDup_singleton.
Qed.

(** Any number of streams up to [2^32]: the call returns. *)
Lemma many_streams_returns n :
  N.of_nat n ≤ UINT32_MOD →
  generate_modules (many_streams_app n) tt []
  = (Done (returned_modules (many_streams_app n) tt),
     created_objs [] (many_streams_app n) tt).
Proof.
  intros Hn.
  apply (generate_modules_returns ltac:(by vm_compute) ltac:(by vm_compute)
           (many_streams_app n) tt []).
  - apply many_streams_configured.
  - apply many_streams_well_typed.
  - by apply many_streams_fresh.
Qed.

Lemma many_streams_port n k :
  N.of_nat n ≤ UINT32_MOD → (k < n)%nat →
  get_field (net_ref "tp_conn_" (N.of_nat k)) "port"
    (generate_modules (many_streams_app n) tt []).2
  = Some (VU16 ((14000 + N.of_nat k) `mod` 2 ^ 16)).
Proof.
  intros Hn Hk. pose proof (many_streams_returns n Hn) as H.
  destruct (created_stream_port (many_streams_app n) tt [] _ _ k (N.of_nat k) H)
    as (dlhConf & ndesc & Hlh & Hnd & Hport).
  { rewrite processed_groups_many. cbn [concat]. rewrite app_nil_r.
    by apply many_ids_lookup. }
  injection Hlh as <-. injection Hnd as <-.
  rewrite H. cbn [snd]. rewrite <- (stream_port_mod 14000 k) by done. exact Hport.
Qed.

(** With 65537 enabled streams the last connection gets the port of the
    first. *)
Lemma stream_ports_collide :
  let st1 := (generate_modules (many_streams_app (N.to_nat 65537)) tt []).2 in
  get_field (net_ref "tp_conn_" 0) "port" st1 = Some (VU16 14000) ∧
  get_field (net_ref "tp_conn_" 65536) "port" st1 = Some (VU16 14000).
Proof.
  assert (N.of_nat (N.to_nat 65537) ≤ UINT32_MOD) as Hn.
  { rewrite N2Nat.id. by vm_compute. }
  split.
  - apply (many_streams_port _ 0 Hn). lia.
  - rewrite <- (N2Nat.id 65536) at 1.
    rewrite (many_streams_port _ (N.to_nat 65536) Hn) by lia.
    by rewrite N2Nat.id.
Qed.

(** ** C7 *)


(** ** C8 *)

(** C8, as stated, fails: with a TP handler configured and no group the
    returned list has one module, the TP handler, not three. *)
Lemma tp_handler_counts_once :
  (generate_modules tp_app tt []).1 = Done [mkRef "TPHandler" "tphandler-7"] ∧
  is_Some (get_tp_handler tp_app) ∧
  processed_groups tt (get_contains tp_app) = [] ∧
  length [mkRef "TPHandler" "tphandler-7"] ≠ (0 + 0 + 3)%nat.
Proof. split_and!; [by vm_compute|by eexists|done|simpl; lia]. Qed.

(** The amended C8 with a TP handler, one group and one stream. *)
Lemma returned_modules_full_app :
  (generate_modules full_app tt []).1
  = Done [mkRef "TPHandler" "tphandler-7"; mkRef "DLH" "DLH-1";
          mkRef "DataReader" "datareader-ru-01-0"].
Proof.
  destruct (generate_modules full_app tt []) as [out st1] eqn:H.
  assert (∃ mods, out = Done mods) as [mods ->].
  { vm_compute in H. injection H as <- _. by eexists. }
  destruct (returned_modules_order_and_count full_app tt [] _ _ H)
    as (dlhConf & rdrConf & Hlh & Hrd & Hmods & _).
  injection Hlh as <-. injection Hrd as <-. simpl. rewrite Hmods. by vm_compute.
Defined.

(** ** C9 *)

(** C9, as stated, fails.  The identifiers are not a function of source
    ids and of group and application identity only: the address template
    of a network rule is part of them.  And they can collide: with the
    address template ["ReqToTPH-"] the connection of stream [0x12345678]
    gets the unique id of the connection of the TP handler of source id
    12345678, and the call, on the empty database, stops with the
    database's error, the TP handler's three objects, the handler and the
    queue left behind.  Generation repeated on the database of the
    one-group scenario collides on the first identifier. *)
Lemma identifiers_collide :
  (UID other_template_app = UID one_group_app ∧
   get_contains other_template_app = get_contains one_group_app ∧
   refs (generate_modules other_template_app tt []).2
     ≠ refs (generate_modules one_group_app tt []).2) ∧
  (get_tp_src_id tp_collision_app = 12345678 ∧
   processed_groups tt (get_contains tp_collision_app) = [[305419896]] ∧
   generate_modules tp_collision_app tt []
     = (Thrown (StoreError (mkRef "NetworkConnection" "ReqToTPH-12345678")),
        (generate_modules tp_collision_app tt []).2) ∧
   refs (generate_modules tp_collision_app tt []).2
     = [mkRef "Queue" "inputToTPH-12345678";
        mkRef "NetworkConnection" "ReqToTPH-12345678";
        mkRef "TPHandler" "tphandler-12345678";
        mkRef "DLH" "DLH-305419896"; mkRef "Queue" "inputToDLH-305419896"]) ∧
  generate_modules one_group_app tt (generate_modules one_group_app tt []).2
    = (Thrown (StoreError (mkRef "DLH" "DLH-1")),
       (generate_modules one_group_app tt []).2).
Proof. vm_compute. split_and!; try reflexivity. intros [=]. Qed.

(** The amended C9 on the one-group scenario and the same scenario told
    otherwise. *)
Lemma identifiers_one_group_variant :
  get_queue_rules one_group_variant_app ≠ get_queue_rules one_group_app ∧
  get_contains one_group_variant_app ≠ get_contains one_group_app ∧
  (generate_modules one_group_variant_app tt []).1
    = Done [mkRef "DLH" "DLH-1"; mkRef "DataReader" "datareader-ru-01-0"] ∧
  refs (generate_modules one_group_variant_app tt []).2
    = [mkRef "DLH" "DLH-1"; mkRef "Queue" "inputToDLH-1";
       mkRef "NetworkConnection" "tp_conn_00000001";
       mkRef "DataReader" "datareader-ru-01-0"] ∧
  get_field (mkRef "NetworkConnection" "tp_conn_00000001") "port"
    (generate_modules one_group_variant_app tt []).2 = Some (VU16 14000) ∧
  generate_modules one_group_app tt (generate_modules one_group_app tt []).2
    = (Thrown (StoreError (mkRef "DLH" "DLH-1")),
       (generate_modules one_group_app tt []).2).
Proof.
  assert (generate_modules one_group_app tt []
          = (Done [mkRef "DLH" "DLH-1"; mkRef "DataReader" "datareader-ru-01-0"],
             (generate_modules one_group_app tt []).2)) as H1 by (by vm_compute).
  assert (∃ mods2, generate_modules one_group_variant_app tt []
                   = (Done mods2, (generate_modules one_group_variant_app tt []).2))
    as [mods2 H2] by (eexists; by vm_compute).
  assert (naming one_group_app tt = naming one_group_variant_app tt) as Hnm
    by (by vm_compute).
  destruct (identifiers_are_a_function_of_naming one_group_app one_group_variant_app
              tt tt _ _ _ _ Hnm H1 H2) as (Hrefs & _ & Hports & Hmods & Hagain).
  split; [by vm_compute|]. split; [by vm_compute|].
  split; [rewrite H2; cbn [fst]; by rewrite <- Hmods|].
  split; [rewrite <- Hrefs; by vm_compute|].
  split; [rewrite <- Hports; by vm_compute|].
  destruct Hagain as (r & Hhd & Hthrow); [discriminate|].
  rewrite Hthrow. f_equal. f_equal. f_equal.
  apply (inj Some). rewrite <- Hhd. by vm_compute.
Defined.
